(** * Product-sheet service (src/pp/main.py): a shallow embedding

    The FastAPI module keeps one process-wide [ProductDatabase], builds a
    French description for every searched EAN / SKU, and exports stored
    products as PrestaShop CSV.  The handlers are embedded as computations
    in a state-and-exception monad over a [World] that holds the store,
    the list objects handed out by [get_all], and a log of every call to a
    collaborator (translator, HTTP client, UUID generator, clock, lookup
    functions).

    A Python [str] is represented by the [string] of its UTF-8 bytes:
    concatenation, emptiness, equality and [endswith] with an ASCII suffix
    agree on both views. *)

From Stdlib Require Import PrimFloat.
From stdpp Require Import base option list strings pretty gmap.

Module main.

(** ** Python values used by the module *)

(** The empty [str] and the characters that cannot be typed in a literal. *)
Definition empty_str : string := EmptyString.
Definition dquote : string := String (Ascii.ascii_of_nat 34) EmptyString.
Definition CR : string := String (Ascii.ascii_of_nat 13) EmptyString.
Definition LF : string := String (Ascii.ascii_of_nat 10) EmptyString.

(** [bool(s)] for a [str]. *)
Definition str_bool (s : string) : bool :=
  match s with
  | EmptyString => false
  | String _ _ => true
  end.

(** [bool(o)] for an [Optional[str]]. *)
Definition opt_bool (o : option string) : bool :=
  match o with
  | Some s => str_bool s
  | None => false
  end.

(** [bool(x)] for a [float]: every value but the two zeros ([nan] included). *)
Definition float_bool (x : float) : bool := negb (PrimFloat.eqb x PrimFloat.zero).

Definition opt_float_bool (o : option float) : bool :=
  match o with
  | Some x => float_bool x
  | None => false
  end.

(** [bool(l)] for an [Optional[List[str]]]. *)
Definition opt_list_bool (o : option (list string)) : bool :=
  match o with
  | Some (_ :: _) => true
  | _ => false
  end.

(** [o or d] for an [Optional[str]] and a [str]. *)
Definition str_or (o : option string) (d : string) : string :=
  match o with
  | Some s => if str_bool s then s else d
  | None => d
  end.

(** [o or '']. *)
Definition or_empty (o : option string) : string := str_or o empty_str.

(** The [str] held by an [Optional[str]] that a test has shown present. *)
Definition unwrap (o : option string) : string := default empty_str o.

(** [o or None]. *)
Definition or_None (o : option string) : option string :=
  if opt_bool o then o else None.

Definition float_or_None (o : option float) : option float :=
  if opt_float_bool o then o else None.

Definition list_or_None (o : option (list string)) : option (list string) :=
  if opt_list_bool o then o else None.

(** [sep.join(l)]. *)
Definition join (sep : string) (l : list string) : string := String.concat sep l.

(** [sep.join(items)] on a list whose items are [str] ([Some]) or [None]:
    the index of the first item that is not a [str], or the strings. *)
Fixpoint join_items (i : nat) (items : list (option string)) : nat + list string :=
  match items with
  | [] => inr []
  | None :: _ => inl i
  | Some s :: rest =>
      match join_items (S i) rest with
      | inl j => inl j
      | inr l => inr (s :: l)
      end
  end.

(** [s.endswith(suffix)]: some tail of [s] is [suffix]. *)
Fixpoint endswith (s suffix : string) : bool :=
  String.eqb s suffix ||
  match s with
  | EmptyString => false
  | String _ s' => endswith s' suffix
  end.

(** ** Data model *)

Module SearchRequest.
Record t : Type := mk {
  ean : option string;
  sku : option string
}.
End SearchRequest.

Module Product.
Record t : Type := mk {
  id : string;
  ean : option string;
  sku : option string;
  name : string;
  brand : option string;
  category : option string;
  price : option float;
  original_price : option float;
  description : string;
  features : option (list string);
  image : option string;
  material : option string;
  type : option string;
  search_type : string;
  search_term : string;
  created_at : string
}.
End Product.

(** The [Dict[str, Any]] returned by the lookup functions, with the keys
    that [perform_product_lookup] documents; a missing key is [None]. *)
Module LookupData.
Record t : Type := mk {
  name : option string;
  brand : option string;
  category : option string;
  price : option float;
  original_price : option float;
  description : option string;
  features : option (list string);
  image : option string;
  material : option string;
  type : option string
}.
(** The literal [{}]. *)
Definition empty : t :=
  mk None None None None None None None None None None.
End LookupData.

(** Exceptions the module raises or lets through.  [Exception] stands for
    any other subclass raised by a library call, with its [str()]. *)
Inductive exn : Type :=
  | HTTPException (status_code : Z) (detail : string)
  | RuntimeError (msg : string)
  | Exception (msg : string).

(** [str(exc)] as used in the f-string of [create_product_in_prestashop]. *)
Definition exn_str (e : exn) : string :=
  match e with
  | HTTPException _ d => d
  | RuntimeError m => m
  | Exception m => m
  end.

(** What [requests.post] hands back. *)
Record HttpResponse : Type := {
  status_code : Z;
  text : string
}.

(** Calls to the collaborators of the module (translator, HTTP client,
    UUID generator, clock, the two lookup functions), in the order made. *)
Inductive event : Type :=
  | EvTranslate (text : string)
  | EvPost (url body key : string)
  | EvUuid4
  | EvNow
  | EvLookupEan (ean : string)
  | EvLookupSku (sku : string).

(** JSON bodies and responses produced by the routes. *)
Inductive content : Type :=
  | SearchResult (product : Product.t)
  | ProductList (products : list Product.t)
  | Health (status : string) (products_count : nat).

Inductive response : Type :=
  | TemplateResponse (template : string) (products : list Product.t)
  | JSONResponse (body : content)
  | Response (body : string) (media_type : string) (headers : list (string * string)).

(** ** The world and the monad *)

Record World : Type := mkWorld {
  (** the list object [products_db._products] *)
  db_products : list Product.t;
  (** list objects created by [list(...)], by address *)
  heap : gmap nat (list Product.t);
  (** calls made so far, oldest first *)
  trace : list event
}.

(** State of the process right after the module is imported. *)
Definition init_world : World := mkWorld [] ∅ [].

Inductive result (A : Type) : Type :=
  | Ok (a : A)
  | Raise (e : exn).
Arguments Ok {A} a.
Arguments Raise {A} e.

Definition M (A : Type) : Type := World -> result A * World.

Definition ret {A} (a : A) : M A := fun w => (Ok a, w).

Definition raise {A} (e : exn) : M A := fun w => (Raise e, w).

Definition bind {A B} (m : M A) (k : A -> M B) : M B :=
  fun w =>
    match m w with
    | (Ok a, w') => k a w'
    | (Raise e, w') => (Raise e, w')
    end.

(** [try: m  except Exception: h]: all of [exn] derives from [Exception]. *)
Definition try_except {A} (m : M A) (h : exn -> M A) : M A :=
  fun w =>
    match m w with
    | (Ok a, w') => (Ok a, w')
    | (Raise e, w') => h e w'
    end.

Notation "'do' x <- m ;; k" := (bind m (fun x => k))
  (at level 10, x name, m at level 99, k at level 200).
Notation "'run' m ;; k" := (bind m (fun _ => k))
  (at level 10, m at level 99, k at level 200).

Definition log (e : event) : M unit :=
  fun w => (Ok tt, mkWorld (db_products w) (heap w) (trace w ++ [e])).

(** The world after some more calls, nothing else changed. *)
Definition log_events (evs : list event) (w : World) : World :=
  mkWorld (db_products w) (heap w) (trace w ++ evs).

(** [sep.join(items)]: a [TypeError] names the first item that is [None]. *)
Definition TypeError (msg : string) : exn := Exception msg.

Definition join_result (sep : string) (items : list (option string)) : result string :=
  match join_items 0 items with
  | inl i =>
      Raise (TypeError ("sequence item " +:+ pretty i
                        +:+ ": expected str instance, NoneType found"))
  | inr l => Ok (join sep l)
  end.

Definition str_join (sep : string) (items : list (option string)) : M string :=
  fun w => (join_result sep items, w).

(** The products that a run of requests answered with, in order. *)
Definition created_product (out : result response) : list Product.t :=
  match out with
  | Ok (JSONResponse (SearchResult p)) => [p]
  | _ => []
  end.

Definition created_products (outs : list (result response)) : list Product.t :=
  flat_map created_product outs.

(** An HTTP error of the server-error class. *)
Definition server_error (e : exn) : Prop :=
  exists status detail, e = HTTPException status detail /\ (500 <= status < 600)%Z.

(** ** The module, over its collaborators *)

Section Service.

(** [str.lower] and [str(x)] for a [float], from the Python runtime. *)
Variable str_lower : string -> string.
Variable float_str : float -> string.

(** What the outside answers, as a function of all earlier calls:
    the translator returns a [str] ([inl (Some _)]), returns [None]
    ([inl None]) or raises ([inr], with the message); [requests.post]
    returns a response or raises. *)
Variable translate_answer : list event -> string -> option string + string.
Variable post_answer : list event -> string -> string -> string -> HttpResponse + string.
Variable uuid4_answer : list event -> string.
Variable now_answer : list event -> string.

(** [os.environ.get(...)] read once at import. *)
Variable PRESTASHOP_BASE_URL : option string.
Variable PRESTASHOP_API_KEY : option string.

(** [GoogleTranslator(source="en", target="fr").translate(text)] *)
Definition translate (text : string) : M (option string) :=
  fun w =>
    match translate_answer (trace w) text with
    | inl fr => (run log (EvTranslate text) ;; ret fr) w
    | inr msg => (run log (EvTranslate text) ;; raise (Exception msg)) w
    end.

(** [requests.post(url, data=body, headers=..., auth=(key, ""), timeout=10)] *)
Definition requests_post (url body key : string) : M HttpResponse :=
  fun w =>
    match post_answer (trace w) url body key with
    | inl r => (run log (EvPost url body key) ;; ret r) w
    | inr msg => (run log (EvPost url body key) ;; raise (Exception msg)) w
    end.

(** [str(uuid.uuid4())] *)
Definition uuid4 : M string :=
  fun w => (run log EvUuid4 ;; ret (uuid4_answer (trace w))) w.

(** [str(datetime.now().isoformat(timespec="seconds"))] *)
Definition datetime_now : M string :=
  fun w => (run log EvNow ;; ret (now_answer (trace w))) w.

(** *** ProductDatabase *)

Definition add (product : Product.t) : M unit :=
  fun w => (Ok tt, mkWorld (db_products w ++ [product]) (heap w) (trace w)).

(** [list(self._products)]: a new list object; its address is returned. *)
Definition get_all : M nat :=
  fun w =>
    let a := fresh (dom (heap w)) in
    (Ok a, mkWorld (db_products w) (<[a := db_products w]> (heap w)) (trace w)).

(** Reading a list object through its address. *)
Definition read_list (a : nat) : M (list Product.t) :=
  fun w => (Ok (default [] (heap w !! a)), w).

Fixpoint get_by_id_loop (product_id : string) (l : list Product.t) : option Product.t :=
  match l with
  | [] => None
  | prod :: rest =>
      if String.eqb (Product.id prod) product_id then Some prod
      else get_by_id_loop product_id rest
  end.

Definition get_by_id (product_id : string) : M (option Product.t) :=
  fun w => (Ok (get_by_id_loop product_id (db_products w)), w).

(** *** Utility functions *)

Definition lookup_product_by_ean (ean : string) : M LookupData.t :=
  run log (EvLookupEan ean) ;; ret LookupData.empty.

Definition lookup_product_by_sku (sku : string) : M LookupData.t :=
  run log (EvLookupSku sku) ;; ret LookupData.empty.

(** The [for feat in features] loop; [features_fr] is the accumulator,
    which takes whatever the translator returned, [None] included. *)
Fixpoint translate_features (features : list string) (features_fr : list (option string))
    : M (list (option string)) :=
  match features with
  | [] => ret features_fr
  | feat :: rest =>
      do features_fr <-
        try_except
          (do fr <- translate feat ;; ret (features_fr ++ [fr]))
          (fun _ => ret (features_fr ++ [Some feat])) ;;
      translate_features rest features_fr
  end.

(** In the features label the space before the colon is U+00A0, as in the
    source.  Both joins stand outside the [try] blocks. *)
Definition generate_french_description
    (name : string) (brand category : option string)
    (features : option (list string)) (english_desc : option string) : M string :=
  let parts : list (option string) := [] in
  let parts :=
    if str_bool name then
      if opt_bool brand then
        parts ++ [Some ("Découvrez " +:+ name +:+ " de la marque " +:+ unwrap brand +:+ ".")]
      else parts ++ [Some ("Découvrez " +:+ name +:+ ".")]
    else parts in
  let parts :=
    if opt_bool category then
      parts ++ [Some ("Il s'agit d'un(e) " +:+ str_lower (unwrap category) +:+ ".")]
    else parts in
  do parts <-
    (if opt_list_bool features then
       do features_fr <- translate_features (default [] features) [] ;;
       do joined <- str_join "; " features_fr ;;
       ret (parts ++ [Some ("Caractéristiques principales : " +:+ joined +:+ ".")])
     else ret parts) ;;
  do parts <-
    (if opt_bool english_desc then
       try_except
         (do translation <- translate (unwrap english_desc) ;;
          ret (parts ++ [translation]))
         (fun _ => ret (parts ++ [Some (unwrap english_desc)]))
     else ret parts) ;;
  do description <- str_join " " parts ;;
  ret (if endswith description "." then description else description +:+ ".").

(** *** Product.to_prestashop_row and the csv writer *)

(** A value of the row dictionary: a [str] or a [float]. *)
Inductive cell : Type :=
  | CellStr (s : string)
  | CellFloat (x : float).

(** The dictionary literal, as its items in insertion order. *)
Definition to_prestashop_row (self : Product.t) : list (string * cell) :=
  [ ("Name", CellStr (Product.name self));
    ("Price", match Product.price self with
              | Some x => if float_bool x then CellFloat x else CellStr empty_str
              | None => CellStr empty_str
              end);
    ("Description", CellStr (Product.description self));
    ("Reference", CellStr (or_empty (Product.sku self)));
    ("EAN", CellStr (or_empty (Product.ean self)));
    ("Category", CellStr (or_empty (Product.category self)));
    ("ImageURL", CellStr (or_empty (Product.image self)));
    ("Brand", CellStr (or_empty (Product.brand self))) ].

(** [list(d.keys())] and [d.get(key, restval)]. *)
Definition dict_keys (d : list (string * cell)) : list string := d.*1.

Fixpoint dict_get (key : string) (d : list (string * cell)) (restval : cell) : cell :=
  match d with
  | [] => restval
  | (k, v) :: rest => if String.eqb k key then v else dict_get key rest restval
  end.

(** The text the writer emits for one value: [str] as it is, anything
    else through [str()]. *)
Definition cell_text (c : cell) : string :=
  match c with
  | CellStr s => s
  | CellFloat x => float_str x
  end.

(** Dialect [excel] with [delimiter=';']: [QUOTE_MINIMAL], quote
    character [dquote], doubled inside a field, lines ended by CR LF. *)
Definition delimiter : Ascii.ascii := Ascii.ascii_of_nat 59.
Definition quotechar : Ascii.ascii := Ascii.ascii_of_nat 34.

Definition special (c : Ascii.ascii) : bool :=
  Ascii.eqb c delimiter || Ascii.eqb c quotechar ||
  Ascii.eqb c (Ascii.ascii_of_nat 13) || Ascii.eqb c (Ascii.ascii_of_nat 10).

Fixpoint needs_quotes (s : string) : bool :=
  match s with
  | EmptyString => false
  | String c s' => special c || needs_quotes s'
  end.

Fixpoint double_quotes (s : string) : string :=
  match s with
  | EmptyString => EmptyString
  | String c s' =>
      if Ascii.eqb c quotechar then String c (String c (double_quotes s'))
      else String c (double_quotes s')
  end.

Definition csv_field (s : string) : string :=
  if needs_quotes s then dquote +:+ double_quotes s +:+ dquote else s.

(** [csv.writer.writerow]: a record that came out empty from at least
    one field is written as one quoted empty field. *)
Definition writer_writerow (fields : list cell) : string :=
  let record := join ";" (csv_field <$> (cell_text <$> fields)) in
  let record :=
    match fields, record with
    | _ :: _, EmptyString => dquote +:+ dquote
    | _, _ => record
    end in
  record +:+ CR +:+ LF.

Definition ValueError (msg : string) : exn := Exception msg.

(** [DictWriter.writerow] with [extrasaction="raise"], [restval=""]. *)
Definition DictWriter_writerow (fieldnames : list string) (rowdict : list (string * cell))
    : M string :=
  if forallb (fun k => bool_decide (k ∈ fieldnames)) (dict_keys rowdict) then
    ret (writer_writerow ((fun key => dict_get key rowdict (CellStr empty_str)) <$> fieldnames))
  else raise (ValueError "dict contains fields not in fieldnames").

(** [DictWriter.writeheader]: the row [dict(zip(fieldnames, fieldnames))]. *)
Definition DictWriter_writeheader (fieldnames : list string) : M string :=
  DictWriter_writerow fieldnames ((fun k => (k, CellStr k)) <$> fieldnames).

(** *** create_product_in_prestashop *)

Definition product_xml (product : Product.t) : string :=
  join LF
    [ "<prestashop xmlns:xlink=" +:+ dquote +:+ "http://www.w3.org/1999/xlink" +:+ dquote +:+ ">";
      "      <product>";
      "        <active>1</active>";
      "        <name>";
      "          <language id=" +:+ dquote +:+ "1" +:+ dquote +:+ ">" +:+ Product.name product +:+ "</language>";
      "        </name>";
      "        <price>" +:+
        match Product.price product with
        | Some x => if float_bool x then float_str x else "0"
        | None => "0"
        end +:+ "</price>";
      "        <reference>" +:+ or_empty (Product.sku product) +:+ "</reference>";
      "        <ean13>" +:+ or_empty (Product.ean product) +:+ "</ean13>";
      "        <description>";
      "          <language id=" +:+ dquote +:+ "1" +:+ dquote +:+ ">" +:+ Product.description product +:+ "</language>";
      "        </description>";
      "        <id_category_default>2</id_category_default>";
      "        <associations>";
      "          <categories>";
      "            <category>";
      "              <id>2</id>";
      "            </category>";
      "          </categories>";
      "        </associations>";
      "      </product>";
      "    </prestashop>" ].

(** In the detail of the error 500 the space before the colon is U+00A0,
    as in the source. *)
Definition create_product_in_prestashop (product : Product.t) : M unit :=
  if negb (opt_bool PRESTASHOP_BASE_URL) || negb (opt_bool PRESTASHOP_API_KEY) then
    raise (RuntimeError
      "PRESTASHOP_BASE_URL et PRESTASHOP_API_KEY doivent être définis pour créer un produit dans PrestaShop.")
  else
    let url := unwrap PRESTASHOP_BASE_URL +:+ "/api/products" in
    do response <-
      try_except
        (requests_post url (product_xml product) (unwrap PRESTASHOP_API_KEY))
        (fun exc =>
           raise (HTTPException 500
                    ("Erreur lors de l'appel à PrestaShop : " +:+ exn_str exc))) ;;
    if negb (Z.eqb (status_code response) 200 || Z.eqb (status_code response) 201) then
      raise (HTTPException (status_code response)
               ("Erreur API PrestaShop: " +:+ text response))
    else ret tt.

Definition perform_product_lookup (search_req : SearchRequest.t) : M LookupData.t :=
  if opt_bool (SearchRequest.ean search_req) then
    lookup_product_by_ean (unwrap (SearchRequest.ean search_req))
  else if opt_bool (SearchRequest.sku search_req) then
    lookup_product_by_sku (unwrap (SearchRequest.sku search_req))
  else ret LookupData.empty.

(** *** Routes *)

Definition home : M response :=
  do a <- get_all ;;
  do products <- read_list a ;;
  ret (TemplateResponse "index.html" products).

Definition search_product (payload : SearchRequest.t) : M response :=
  if negb (opt_bool (SearchRequest.ean payload)) && negb (opt_bool (SearchRequest.sku payload)) then
    raise (HTTPException 400 "Veuillez fournir un code EAN ou une référence SKU.")
  else
    do lookup_data <- perform_product_lookup payload ;;
    let search_term :=
      str_or (SearchRequest.ean payload) (str_or (SearchRequest.sku payload) empty_str) in
    let search_type := if opt_bool (SearchRequest.ean payload) then "EAN" else "SKU" in
    let name :=
      str_or (LookupData.name lookup_data)
        (if str_bool search_term then "Produit " +:+ search_type +:+ " " +:+ search_term
         else "Produit inconnu") in
    let brand := or_None (LookupData.brand lookup_data) in
    let category := or_None (LookupData.category lookup_data) in
    let price := float_or_None (LookupData.price lookup_data) in
    let original_price := float_or_None (LookupData.original_price lookup_data) in
    let english_desc := or_None (LookupData.description lookup_data) in
    let features := list_or_None (LookupData.features lookup_data) in
    let image := or_None (LookupData.image lookup_data) in
    let material := or_None (LookupData.material lookup_data) in
    let prod_type := or_None (LookupData.type lookup_data) in
    do description_fr <-
      generate_french_description name brand category features english_desc ;;
    do new_id <- uuid4 ;;
    do created_at <- datetime_now ;;
    let product :=
      Product.mk new_id (SearchRequest.ean payload) (SearchRequest.sku payload)
        name brand category price original_price description_fr features
        image material prod_type search_type search_term created_at in
    run add product ;;
    ret (JSONResponse (SearchResult product)).

Definition get_products : M response :=
  do a <- get_all ;;
  do products <- read_list a ;;
  ret (JSONResponse (ProductList products)).

Definition export_prestashop_csv (product_id : string) : M response :=
  do product <- get_by_id product_id ;;
  match product with
  | None => raise (HTTPException 404 "Produit non trouvé")
  | Some product =>
      let csv_buffer := empty_str in
      let fieldnames := dict_keys (to_prestashop_row product) in
      do header <- DictWriter_writeheader fieldnames ;;
      let csv_buffer := csv_buffer +:+ header in
      do row <- DictWriter_writerow fieldnames (to_prestashop_row product) ;;
      let csv_buffer := csv_buffer +:+ row in
      let csv_data := csv_buffer in
      let filename := "fiche_" +:+ Product.id product +:+ ".csv" in
      ret (Response csv_data "text/csv"
             [("Content-Disposition", "attachment; filename=" +:+ filename)])
  end.

Definition health_check : M response :=
  do a <- get_all ;;
  do products <- read_list a ;;
  ret (JSONResponse (Health "OK" (length products))).

(** *** The application: requests served one after the other *)

Inductive request : Type :=
  | GET_home
  | POST_api_search (payload : SearchRequest.t)
  | GET_api_products
  | GET_api_export (product_id : string)
  | GET_api_health.

Definition handle (r : request) : M response :=
  match r with
  | GET_home => home
  | POST_api_search payload => search_product payload
  | GET_api_products => get_products
  | GET_api_export product_id => export_prestashop_csv product_id
  | GET_api_health => health_check
  end.

(** An exception ends its own request only; the outcome of every request
    is kept, in order. *)
Fixpoint serve (rs : list request) (w : World) : list (result response) * World :=
  match rs with
  | [] => ([], w)
  | r :: rest =>
      let '(out, w1) := handle r w in
      let '(outs, w2) := serve rest w1 in
      (out :: outs, w2)
  end.

(** *** Reading aids for the generator

    Pure counterparts of the pieces of [generate_french_description],
    used to state what a run returns. *)

(** The last two statements of [generate_french_description]. *)
Definition with_final_period (description : string) : string :=
  if endswith description "." then description else description +:+ ".".

(** What one guarded translation leaves in the list: what the translator
    returned, or the text itself when the translator raised. *)
Definition translated_or_original (tr : list event) (text : string) : option string :=
  match translate_answer tr text with
  | inl fr => fr
  | inr _ => Some text
  end.

Fixpoint features_fr_from (tr : list event) (features : list string)
    : list (option string) :=
  match features with
  | [] => []
  | feat :: rest =>
      translated_or_original tr feat :: features_fr_from (tr ++ [EvTranslate feat]) rest
  end.

(** The sentences, one list per step of the generator. *)
Definition opening_sentence (name : string) (brand : option string) : list string :=
  if str_bool name then
    if opt_bool brand then
      ["Découvrez " +:+ name +:+ " de la marque " +:+ unwrap brand +:+ "."]
    else ["Découvrez " +:+ name +:+ "."]
  else [].

Definition category_sentence (category : option string) : list string :=
  if opt_bool category then
    ["Il s'agit d'un(e) " +:+ str_lower (unwrap category) +:+ "."]
  else [].

(** The features sentence, or the [TypeError] of its join. *)
Definition features_part (tr : list event) (features : option (list string))
    : result (list string) :=
  if opt_list_bool features then
    match join_result "; " (features_fr_from tr (default [] features)) with
    | Ok joined => Ok ["Caractéristiques principales : " +:+ joined +:+ "."]
    | Raise e => Raise e
    end
  else Ok [].

(** The item appended for the English text. *)
Definition english_part (tr : list event) (english_desc : option string)
    : list (option string) :=
  if opt_bool english_desc then [translated_or_original tr (unwrap english_desc)]
  else [].

(** Translator calls made for the features, and for the English text. *)
Definition features_events (features : option (list string)) : list event :=
  if opt_list_bool features then EvTranslate <$> default [] features else [].

Definition english_events (english_desc : option string) : list event :=
  if opt_bool english_desc then [EvTranslate (unwrap english_desc)] else [].

(** What the generator returns or raises, given its opening sentences,
    and the calls it makes. *)
Definition description_outcome (opening : list string) (tr : list event)
    (category : option string) (features : option (list string))
    (english_desc : option string) : result string :=
  match features_part tr features with
  | Raise e => Raise e
  | Ok sentence =>
      match join_result " "
              ((Some <$> (opening ++ category_sentence category ++ sentence)) ++
               english_part (tr ++ features_events features) english_desc) with
      | Ok description => Ok (with_final_period description)
      | Raise e => Raise e
      end
  end.

Definition description_events (tr : list event) (features : option (list string))
    (english_desc : option string) : list event :=
  match features_part tr features with
  | Raise _ => features_events features
  | Ok _ => features_events features ++ english_events english_desc
  end.

(** *** Reading aids for the routes *)

(** The lookup call a search makes. *)
Definition lookup_events (payload : SearchRequest.t) : list event :=
  if opt_bool (SearchRequest.ean payload) then
    [EvLookupEan (unwrap (SearchRequest.ean payload))]
  else if opt_bool (SearchRequest.sku payload) then
    [EvLookupSku (unwrap (SearchRequest.sku payload))]
  else [].

(** The product a valid search builds in a world whose log is [tr]. *)
Definition new_product (payload : SearchRequest.t) (tr : list event) : Product.t :=
  let search_term :=
    str_or (SearchRequest.ean payload) (str_or (SearchRequest.sku payload) empty_str) in
  let search_type := if opt_bool (SearchRequest.ean payload) then "EAN" else "SKU" in
  let name :=
    if str_bool search_term then "Produit " +:+ search_type +:+ " " +:+ search_term
    else "Produit inconnu" in
  let tr1 := tr ++ lookup_events payload in
  Product.mk (uuid4_answer tr1) (SearchRequest.ean payload) (SearchRequest.sku payload)
    name None None None None
    (with_final_period (join " " (opening_sentence name None)))
    None None None None search_type search_term (now_answer (tr1 ++ [EvUuid4])).

(** Worlds the running application can be in. *)
Inductive reachable : World -> Prop :=
  | reachable_init : reachable init_world
  | reachable_step (w : World) (r : request) :
      reachable w -> reachable (handle r w).2.

(** The UUID generator is taken to be ideal: a value it hands out is never
    the value of an earlier call.  [tr] is the log at the earlier call,
    [tr ++ EvUuid4 :: more] the log at the later one. *)
Definition uuid4_never_repeats : Prop :=
  forall tr more, uuid4_answer (tr ++ EvUuid4 :: more) <> uuid4_answer tr.

(** Every stored identifier was handed out by an earlier [uuid4] call. *)
Definition ids_generated (w : World) : Prop :=
  forall p, p ∈ db_products w ->
    exists tr more, trace w = tr ++ EvUuid4 :: more /\ Product.id p = uuid4_answer tr.

(** The exported table: column names, and the cells of a product. *)
Definition header_row : list string :=
  ["Name"; "Price"; "Description"; "Reference"; "EAN"; "Category"; "ImageURL"; "Brand"].

Definition data_row (p : Product.t) : list string :=
  [ Product.name p;
    from_option float_str EmptyString (Product.price p);
    Product.description p;
    default EmptyString (Product.sku p);
    default EmptyString (Product.ean p);
    default EmptyString (Product.category p);
    default EmptyString (Product.image p);
    default EmptyString (Product.brand p) ].

(** One line of the file: the cells, quoted where needed, separated by
    semicolons and ended by CR LF. *)
Definition csv_line (cells : list string) : string :=
  join ";" (csv_field <$> cells) +:+ CR +:+ LF.

(** What [x or None] leaves in a price: nothing, or a non-zero number. *)
Definition price_not_falsy (p : Product.t) : Prop :=
  forall x, Product.price p = Some x -> float_bool x = true.

(** What holds of the store in every reachable world. *)
Definition store_invariant (w : World) : Prop :=
  ids_generated w /\
  NoDup (Product.id <$> db_products w) /\
  Forall price_not_falsy (db_products w).

(** A search that passes validation. *)
Definition valid_search (r : request) : bool :=
  match r with
  | POST_api_search payload =>
      opt_bool (SearchRequest.ean payload) || opt_bool (SearchRequest.sku payload)
  | _ => false
  end.

(** The generator as section 4.2 of the specification words it: step 1
    always yields an opening sentence, with the brand when there is one and
    with the name alone otherwise; the other steps are those of the code. *)
Definition spec_opening_sentence (name : string) (brand : option string) : list string :=
  if opt_bool brand then
    ["Découvrez " +:+ name +:+ " de la marque " +:+ unwrap brand +:+ "."]
  else ["Découvrez " +:+ name +:+ "."].

Definition spec_description (tr : list event) (name : string)
    (brand category : option string) (features : option (list string))
    (english_desc : option string) : result string :=
  description_outcome (spec_opening_sentence name brand) tr category features
    english_desc.

End Service.

End main.

Import main.

(** ** Reading an exported table back

    A strict reader for the format the writer emits: cells separated by
    semicolons, lines ended by CR LF, a cell in quotes when it holds a
    semicolon, a quote or a line break, a quote doubled inside quotes.
    It is used to say what table a text denotes. *)

Inductive reader_state : Type :=
  | FieldStart
  | Unquoted
  | Quoted
  | QuoteSeen
  | AfterCR.

Record reader : Type := mkReader {
  rows_read : list (list string);
  row_read : list string;
  field_read : string;
  state : reader_state
}.

Definition set_state (r : reader) (st : reader_state) : reader :=
  mkReader (rows_read r) (row_read r) (field_read r) st.

Definition add_char (c : Ascii.ascii) (r : reader) (st : reader_state) : reader :=
  mkReader (rows_read r) (row_read r) (field_read r +:+ String c EmptyString) st.

Definition end_field (r : reader) (st : reader_state) : reader :=
  mkReader (rows_read r) (row_read r ++ [field_read r]) EmptyString st.

Definition end_row (r : reader) : reader :=
  mkReader (rows_read r ++ [row_read r]) [] EmptyString FieldStart.

Definition is_CR (c : Ascii.ascii) : bool := Ascii.eqb c (Ascii.ascii_of_nat 13).
Definition is_LF (c : Ascii.ascii) : bool := Ascii.eqb c (Ascii.ascii_of_nat 10).
Definition is_delimiter (c : Ascii.ascii) : bool := Ascii.eqb c delimiter.
Definition is_quote (c : Ascii.ascii) : bool := Ascii.eqb c quotechar.

Definition read_char (r : reader) (c : Ascii.ascii) : option reader :=
  match state r with
  | FieldStart =>
      if is_quote c then Some (set_state r Quoted)
      else if is_delimiter c then Some (end_field r FieldStart)
      else if is_CR c then Some (end_field r AfterCR)
      else if is_LF c then None
      else Some (add_char c r Unquoted)
  | Unquoted =>
      if is_delimiter c then Some (end_field r FieldStart)
      else if is_CR c then Some (end_field r AfterCR)
      else if is_quote c || is_LF c then None
      else Some (add_char c r Unquoted)
  | Quoted =>
      if is_quote c then Some (set_state r QuoteSeen)
      else Some (add_char c r Quoted)
  | QuoteSeen =>
      if is_quote c then Some (add_char c r Quoted)
      else if is_delimiter c then Some (end_field r FieldStart)
      else if is_CR c then Some (end_field r AfterCR)
      else None
  | AfterCR =>
      if is_LF c then Some (end_row r) else None
  end.

Fixpoint read_chars (s : string) (r : reader) : option reader :=
  match s with
  | EmptyString => Some r
  | String c s' =>
      match read_char r c with
      | Some r' => read_chars s' r'
      | None => None
      end
  end.

(** The rows of a text, when it is a well-formed table whose last line is
    complete. *)
Definition read_table (s : string) : option (list (list string)) :=
  match read_chars s (mkReader [] [] EmptyString FieldStart) with
  | Some (mkReader rows [] EmptyString FieldStart) => Some rows
  | _ => None
  end.

(** States in which a cell may end. *)
Definition at_field_end (st : reader_state) : Prop :=
  st = FieldStart \/ st = Unquoted \/ st = QuoteSeen.

(** ** A concrete setting

    One choice of collaborators, on which the statements below are run:
    lower-casing of the ASCII letters, a translator that answers every
    other call and raises otherwise, a UUID generator that counts the calls
    logged so far, and a remote shop that refuses the key. *)

Definition ascii_lower (c : Ascii.ascii) : Ascii.ascii :=
  let n := Ascii.nat_of_ascii c in
  if (65 <=? n) && (n <=? 90) then Ascii.ascii_of_nat (n + 32) else c.

Fixpoint sample_lower (s : string) : string :=
  match s with
  | EmptyString => EmptyString
  | String c s' => String (ascii_lower c) (sample_lower s')
  end.

Definition sample_float_str (x : float) : string :=
  if PrimFloat.eqb x 19.5%float then "19.5" else "0.5".

Definition sample_translate (tr : list event) (text : string)
    : option string + string :=
  if Nat.even (length tr) then inl (Some ("(fr) " +:+ text))
  else inr "TranslationNotFound".

Fixpoint unary (n : nat) : string :=
  match n with
  | O => EmptyString
  | S n' => String (Ascii.ascii_of_nat 117) (unary n')
  end.

Definition counting_uuid4 (tr : list event) : string := unary (length tr).

Definition sample_now (tr : list event) : string := "2024-05-17T10:30:00".

Definition refusing_post (tr : list event) (url body key : string)
    : HttpResponse + string :=
  inl {| status_code := 401; text := "Unauthorized" |}.

Definition sample_handle : request -> M response :=
  handle sample_lower sample_float_str sample_translate counting_uuid4 sample_now.

Definition sample_search : SearchRequest.t -> M response :=
  search_product sample_lower sample_translate counting_uuid4 sample_now.

Definition ean_request : SearchRequest.t :=
  SearchRequest.mk (Some "3017620422003") None.

Definition sku_request : SearchRequest.t :=
  SearchRequest.mk None (Some "REF-42").

(** The world after one search by EAN, and the product it stored. *)
Definition world_one : World := (sample_handle (POST_api_search ean_request) init_world).2.

Definition product_one : Product.t :=
  new_product counting_uuid4 sample_now ean_request [].

(** A generator that hands out one and the same value, and the world
    after one search with it. *)
Definition repeating_uuid4 (tr : list event) : string :=
  "0f8fad5b-d9cb-469f-a165-70867728950e".

Definition repeating_search : SearchRequest.t -> M response :=
  search_product sample_lower sample_translate repeating_uuid4 sample_now.

Definition world_repeat : World := (repeating_search ean_request init_world).2.

Definition product_repeat : Product.t :=
  new_product repeating_uuid4 sample_now ean_request [].

(** A store put together by hand, with a product whose price is zero. *)
Definition gift : Product.t :=
  Product.mk "gift-1" None (Some "GIFT") "Carte cadeau" None None (Some 0%float) None
    "Carte offerte." None None None None "SKU" "GIFT" "2024-05-17T10:30:00".

Definition gift_world : World := mkWorld [gift] ∅ [].

(** A translator that returns [None] for a text it cannot handle. *)
Definition none_translate (tr : list event) (text : string) : option string + string :=
  if String.eqb text "***" then inl None else inl (Some ("(fr) " +:+ text)).




(** A remote shop that cannot be reached. *)
Definition unreachable_post (tr : list event) (url body key : string)
    : HttpResponse + string :=
  inr "Connection refused".

(** * Properties *)

(** ** Strings *)

Lemma str_bool_true (s : string) : str_bool s = true ↔ s ≠ EmptyString.
Proof. destruct s; simpl; split; intros H; congruence. Qed.

Lemma opt_bool_true (o : option string) :
  opt_bool o = true ↔ ∃ s, o = Some s ∧ s ≠ EmptyString.
Proof.
  destruct o as [s|]; simpl.
  - rewrite str_bool_true. split; [eauto | intros (s' & [= <-] & H); done].
  - split; [done | intros (s' & H & _); done].
Qed.

Lemma or_empty_default (o : option string) : or_empty o = default EmptyString o.
Proof. destruct o as [[|c s]|]; reflexivity. Qed.

Lemma append_cons c (s t : string) : String c s +:+ t = String c (s +:+ t).
Proof. reflexivity. Qed.

Lemma append_nil_l (t : string) : EmptyString +:+ t = t.
Proof. reflexivity. Qed.

Lemma append_empty_r (s : string) : s +:+ EmptyString = s.
Proof. induction s as [|c s IH]; [done | by rewrite append_cons, IH]. Qed.

Lemma append_assoc (a b c : string) : (a +:+ b) +:+ c = a +:+ (b +:+ c).
Proof. induction a as [|x a IH]; [done | by rewrite !append_cons, IH]. Qed.

Lemma endswith_nil (suffix : string) :
  endswith EmptyString suffix = String.eqb EmptyString suffix.
Proof. simpl. by rewrite orb_false_r. Qed.

Lemma endswith_cons c (s suffix : string) :
  endswith (String c s) suffix = String.eqb (String c s) suffix || endswith s suffix.
Proof. reflexivity. Qed.

Lemma endswith_spec (s suffix : string) :
  endswith s suffix = true ↔ ∃ p, s = p +:+ suffix.
Proof.
  induction s as [|c s IH].
  - rewrite endswith_nil, String.eqb_eq. split.
    + intros <-. by exists EmptyString.
    + intros ([|c p] & H); [done | rewrite append_cons in H; discriminate].
  - rewrite endswith_cons, orb_true_iff, String.eqb_eq, IH. split.
    + intros [<- | (p & ->)]; [by exists EmptyString | by exists (String c p)].
    + intros ([|c' p] & H); [by left | right].
      rewrite append_cons in H. injection H as -> ->. by exists p.
Qed.

Lemma with_final_period_ends (s : string) : ∃ p, with_final_period s = p +:+ ".".
Proof.
  unfold with_final_period. destruct (endswith s ".") eqn:E.
  - by apply endswith_spec.
  - by exists s.
Qed.

Lemma append_nonempty (p : string) c s : p +:+ String c s ≠ EmptyString.
Proof. destruct p; [rewrite append_nil_l | rewrite append_cons]; discriminate. Qed.

(** ** Running the monad *)

Lemma log_events_nil w : log_events [] w = w.
Proof. destruct w. unfold log_events. simpl. by rewrite app_nil_r. Qed.

Lemma log_events_app evs1 evs2 w :
  log_events evs2 (log_events evs1 w) = log_events (evs1 ++ evs2) w.
Proof. unfold log_events. simpl. by rewrite app_assoc. Qed.

Ltac mrun := unfold bind, ret, raise, try_except, log; simpl.

(** ** The csv writer and the reader *)

Lemma read_chars_app (a b : string) (r : reader) :
  read_chars (a +:+ b) r = read_chars a r ≫= read_chars b.
Proof.
  revert r. induction a as [|c a IH]; intros r; [done |].
  rewrite append_cons. simpl. destruct (read_char r c); [apply IH | done].
Qed.

Lemma special_false c :
  special c = false →
  is_delimiter c = false ∧ is_quote c = false ∧ is_CR c = false ∧ is_LF c = false.
Proof.
  unfold special, is_delimiter, is_quote, is_CR, is_LF.
  intros H. repeat (apply orb_false_iff in H as [H ?]). done.
Qed.

(** A cell without special characters is read as it stands. *)
Lemma read_plain s r :
  needs_quotes s = false →
  state r = FieldStart ∨ state r = Unquoted →
  ∃ st, (st = state r ∨ st = Unquoted) ∧
    read_chars s r
    = Some (mkReader (rows_read r) (row_read r) (field_read r +:+ s) st).
Proof.
  revert r. induction s as [|c s IH]; intros r Hs Hst.
  - exists (state r). split; [by left |]. simpl. rewrite append_empty_r. by destruct r.
  - simpl in Hs. apply orb_false_iff in Hs as [Hc Hs].
    apply special_false in Hc as (Hd & Hq & Hcr & Hlf).
    assert (read_char r c = Some (add_char c r Unquoted)) as Hstep.
    { unfold read_char. destruct Hst as [-> | ->]; by rewrite ?Hd, ?Hq, ?Hcr, ?Hlf. }
    simpl. rewrite Hstep.
    destruct (IH (add_char c r Unquoted) Hs) as (st & Hst' & Hrun); [by right |].
    exists st. split; [right; by destruct Hst' |].
    rewrite Hrun. simpl. by rewrite append_assoc.
Qed.

(** Inside quotes, the doubled text is read as the text. *)
Lemma read_doubled s r :
  state r = Quoted →
  read_chars (double_quotes s) r
  = Some (mkReader (rows_read r) (row_read r) (field_read r +:+ s) Quoted).
Proof.
  revert r. induction s as [|c s IH]; intros r Hst.
  - simpl. rewrite append_empty_r. destruct r. simpl in Hst. by subst.
  - simpl. destruct (Ascii.eqb c quotechar) eqn:Hq; simpl.
    + unfold read_char at 1. rewrite Hst. unfold is_quote. rewrite Hq.
      unfold read_char at 1. simpl. unfold is_quote. rewrite Hq.
      rewrite IH by done. simpl. by rewrite append_assoc.
    + unfold read_char at 1. rewrite Hst. unfold is_quote. rewrite Hq.
      rewrite IH by done. simpl. by rewrite append_assoc.
Qed.

Lemma read_field s r :
  state r = FieldStart → field_read r = EmptyString →
  ∃ st, at_field_end st ∧
    read_chars (csv_field s) r = Some (mkReader (rows_read r) (row_read r) s st).
Proof.
  intros Hst Hf. unfold csv_field. destruct (needs_quotes s) eqn:Hn.
  - exists QuoteSeen. split; [right; by right |].
    rewrite read_chars_app. unfold dquote at 1. simpl.
    unfold read_char at 1. rewrite Hst. simpl.
    rewrite read_chars_app, read_doubled by done. simpl. by rewrite Hf.
  - destruct (read_plain s r Hn) as (st & Hst' & Hrun); [by left |].
    exists st. split.
    + destruct Hst' as [-> | ->]; [left; done | right; by left].
    + rewrite Hrun, Hf. done.
Qed.

Lemma read_delimiter r :
  at_field_end (state r) →
  read_char r delimiter = Some (end_field r FieldStart).
Proof. unfold read_char. by intros [-> | [-> | ->]]. Qed.

Lemma read_line_end r :
  at_field_end (state r) →
  read_chars (CR +:+ LF) r
  = Some (mkReader (rows_read r ++ [row_read r ++ [field_read r]]) [] EmptyString
            FieldStart).
Proof.
  intros H. unfold CR, LF. rewrite append_cons, append_nil_l. simpl.
  assert (read_char r (Ascii.ascii_of_nat 13) = Some (end_field r AfterCR)) as ->
    by (unfold read_char; by destruct H as [-> | [-> | ->]]).
  reflexivity.
Qed.

Lemma mbind_Some {A B} (x : A) (f : A → option B) : Some x ≫= f = f x.
Proof. reflexivity. Qed.

(** A line written from a row is read back as that row. *)
Lemma read_line (cells : list string) r :
  cells ≠ [] →
  state r = FieldStart → field_read r = EmptyString →
  read_chars (csv_line cells) r
  = Some (mkReader (rows_read r ++ [row_read r ++ cells]) [] EmptyString FieldStart).
Proof.
  intros Hne. revert r. unfold csv_line.
  induction cells as [|a cells IH]; [done |]. intros r Hst Hf.
  destruct (read_field a r Hst Hf) as (st & Hend & Hrun).
  destruct cells as [|b cells].
  - change (join ";" (csv_field <$> [a])) with (csv_field a).
    rewrite read_chars_app, Hrun, mbind_Some. by rewrite read_line_end.
  - change (join ";" (csv_field <$> a :: b :: cells))
      with (csv_field a +:+ ";" +:+ join ";" (csv_field <$> b :: cells)).
    rewrite !append_assoc, read_chars_app, Hrun, mbind_Some.
    change ";" with (String delimiter EmptyString).
    rewrite append_cons, append_nil_l.
    change (read_chars (String delimiter ?t) ?x)
      with (match read_char x delimiter with
            | Some r' => read_chars t r'
            | None => None
            end).
    rewrite read_delimiter by done. unfold end_field.
    rewrite IH by done. simpl. by rewrite <- app_assoc.
Qed.

(** A header line and a data line denote the table of these two rows. *)
Lemma read_table_two_lines (header cells : list string) :
  header ≠ [] → cells ≠ [] →
  read_table (csv_line header +:+ csv_line cells) = Some [header; cells].
Proof.
  intros Hh Hc. unfold read_table.
  rewrite read_chars_app, read_line, mbind_Some by done.
  by rewrite read_line.
Qed.

Section ServiceFacts.

Variable str_lower : string -> string.
Variable float_str : float -> string.
Variable translate_answer : list event -> string -> option string + string.
Variable post_answer : list event -> string -> string -> string -> HttpResponse + string.
Variable uuid4_answer : list event -> string.
Variable now_answer : list event -> string.
Variable PRESTASHOP_BASE_URL : option string.
Variable PRESTASHOP_API_KEY : option string.

#[local] Abbreviation translate := (translate translate_answer).
#[local] Abbreviation translate_features := (translate_features translate_answer).
#[local] Abbreviation translated_or_original := (translated_or_original translate_answer).
#[local] Abbreviation features_fr_from := (features_fr_from translate_answer).
#[local] Abbreviation features_part := (features_part translate_answer).
#[local] Abbreviation english_part := (english_part translate_answer).
#[local] Abbreviation description_outcome :=
  (description_outcome str_lower translate_answer).
#[local] Abbreviation description_events := (description_events translate_answer).
#[local] Abbreviation generate_french_description :=
  (generate_french_description str_lower translate_answer).

(** *** Description generator *)

Lemma try_translate_run {A} (f : option string -> A) (text : string) (w : World) :
  try_except (do fr <- translate text ;; ret (f fr)) (fun _ => ret (f (Some text))) w
  = (Ok (f (translated_or_original (trace w) text)), log_events [EvTranslate text] w).
Proof.
  unfold main.translated_or_original, main.translate. mrun.
  destruct (translate_answer (trace w) text); reflexivity.
Qed.

Lemma translate_features_run (features : list string) (acc : list (option string))
    (w : World) :
  translate_features features acc w
  = (Ok (acc ++ features_fr_from (trace w) features),
     log_events (EvTranslate <$> features) w).
Proof.
  revert acc w. induction features as [|feat rest IH]; intros acc w; simpl.
  - by rewrite app_nil_r, log_events_nil.
  - unfold bind at 1.
    rewrite (try_translate_run (fun fr => acc ++ [fr])).
    rewrite IH, log_events_app. simpl. by rewrite <- app_assoc.
Qed.

Lemma join_items_Some (i : nat) (l : list string) : join_items i (Some <$> l) = inr l.
Proof.
  revert i. induction l as [|x l IH]; intros i; simpl; [done | by rewrite IH].
Qed.

Lemma join_result_Some (sep : string) (l : list string) :
  join_result sep (Some <$> l) = Ok (join sep l).
Proof. unfold join_result. by rewrite join_items_Some. Qed.

Lemma generate_french_description_run name brand category features english_desc w :
  generate_french_description name brand category features english_desc w
  = (description_outcome (opening_sentence name brand) (trace w) category features
       english_desc,
     log_events (description_events (trace w) features english_desc) w).
Proof.
  unfold main.generate_french_description, main.description_outcome,
    main.description_events.
  set (p1 := (if str_bool name then _ else _) : list (option string)).
  assert (Hp1 : p1 = Some <$> opening_sentence name brand).
  { subst p1. unfold opening_sentence.
    by destruct (str_bool name), (opt_bool brand). }
  set (p2 := (if opt_bool category then _ else _) : list (option string)).
  assert (Hp2 : p2 = Some <$> (opening_sentence name brand
                                ++ category_sentence str_lower category)).
  { subst p2. rewrite Hp1, fmap_app. unfold category_sentence.
    destruct (opt_bool category); [done | by rewrite app_nil_r]. }
  clearbody p2. clear p1 Hp1. subst p2.
  assert (Hfinal : ∀ (items : list (option string)) w',
            (do description <- str_join " " items ;;
             ret (if endswith description "." then description
                  else description +:+ ".")) w'
            = (match join_result " " items with
               | Ok description => Ok (with_final_period description)
               | Raise e => Raise e
               end, w')).
  { intros items w'. unfold bind, str_join, ret.
    by destruct (join_result " " items). }
  assert (Henglish : ∀ (parts : list (option string)) w',
            (if opt_bool english_desc then
               try_except
                 (do translation <- translate (unwrap english_desc) ;;
                  ret (parts ++ [translation]))
                 (fun _ => ret (parts ++ [Some (unwrap english_desc)]))
             else ret parts) w'
            = (Ok (parts ++ english_part (trace w') english_desc),
               log_events (english_events english_desc) w')).
  { intros parts w'. unfold main.english_part, english_events.
    destruct (opt_bool english_desc).
    - apply (try_translate_run (fun t => parts ++ [t])).
    - unfold ret. by rewrite app_nil_r, log_events_nil. }
  unfold bind at 1. unfold main.features_part, features_events.
  destruct (opt_list_bool features) eqn:Ef.
  - unfold bind at 1. rewrite translate_features_run.
    unfold bind at 1. unfold str_join at 1. rewrite app_nil_l.
    destruct (join_result "; " _) as [joined | e]; [| done].
    unfold ret at 1. unfold bind at 1. rewrite Henglish.
    rewrite Hfinal, log_events_app. simpl.
    by rewrite !fmap_app, <- !app_assoc.
  - unfold ret at 1. unfold bind at 1. rewrite Henglish, Hfinal. simpl.
    by rewrite !app_nil_r.
Qed.

Lemma description_outcome_bare (opening : list string) (tr : list event) :
  description_outcome opening tr None None None
  = Ok (with_final_period (join " " opening)).
Proof.
  unfold main.description_outcome. simpl.
  by rewrite !app_nil_r, join_result_Some.
Qed.

(** *** Search *)

#[local] Abbreviation search_product :=
  (search_product str_lower translate_answer uuid4_answer now_answer).
#[local] Abbreviation new_product := (new_product uuid4_answer now_answer).

Lemma perform_product_lookup_run payload w :
  perform_product_lookup payload w
  = (Ok LookupData.empty, log_events (lookup_events payload) w).
Proof.
  unfold perform_product_lookup, lookup_events.
  destruct (opt_bool (SearchRequest.ean payload)); [reflexivity |].
  destruct (opt_bool (SearchRequest.sku payload)); [reflexivity |].
  unfold ret. by rewrite log_events_nil.
Qed.

Lemma search_product_invalid payload w :
  opt_bool (SearchRequest.ean payload) = false ->
  opt_bool (SearchRequest.sku payload) = false ->
  search_product payload w
  = (Raise (HTTPException 400 "Veuillez fournir un code EAN ou une référence SKU."), w).
Proof. intros He Hs. unfold main.search_product. by rewrite He, Hs. Qed.

Lemma search_product_run payload w :
  opt_bool (SearchRequest.ean payload) || opt_bool (SearchRequest.sku payload) = true ->
  search_product payload w
  = (Ok (JSONResponse (SearchResult (new_product payload (trace w)))),
     mkWorld (db_products w ++ [new_product payload (trace w)]) (heap w)
       (trace w ++ lookup_events payload ++ [EvUuid4; EvNow])).
Proof.
  intros Hv. unfold main.search_product.
  replace (negb (opt_bool (SearchRequest.ean payload)) &&
           negb (opt_bool (SearchRequest.sku payload))) with false
    by (rewrite <- negb_orb, Hv; done).
  unfold bind at 1. rewrite perform_product_lookup_run.
  cbn [LookupData.name LookupData.brand LookupData.category LookupData.price
       LookupData.original_price LookupData.description LookupData.features
       LookupData.image LookupData.material LookupData.type LookupData.empty
       or_None float_or_None list_or_None opt_bool opt_float_bool opt_list_bool str_or].
  unfold bind at 1.
  rewrite generate_french_description_run, description_outcome_bare.
  unfold uuid4, datetime_now, add, main.new_product. mrun.
  rewrite !app_nil_r, <- !app_assoc. reflexivity.
Qed.

(** *** Store and export *)

#[local] Abbreviation export_prestashop_csv := (export_prestashop_csv float_str).
#[local] Abbreviation data_row := (data_row float_str).

Lemma get_by_id_loop_None product_id l :
  get_by_id_loop product_id l = None ↔ ∀ p, p ∈ l → Product.id p ≠ product_id.
Proof.
  induction l as [|q l IH]; simpl.
  - split; [intros _ p Hp; by apply elem_of_nil in Hp | done].
  - destruct (String.eqb (Product.id q) product_id) eqn:E.
    + apply String.eqb_eq in E. split; [done |].
      intros H. exfalso. apply (H q); [left | done].
    + apply String.eqb_neq in E. rewrite IH. split.
      * intros H p [-> | Hp]%elem_of_cons; [done | by apply H].
      * intros H p Hp. apply H. by right.
Qed.

Lemma get_by_id_loop_Some product_id l p :
  get_by_id_loop product_id l = Some p → p ∈ l ∧ Product.id p = product_id.
Proof.
  induction l as [|q l IH]; simpl; [done |].
  destruct (String.eqb (Product.id q) product_id) eqn:E.
  - intros [= <-]. apply String.eqb_eq in E. split; [left | done].
  - intros [H1 H2]%IH. split; [by right | done].
Qed.

Lemma get_by_id_loop_NoDup l p :
  NoDup (Product.id <$> l) → p ∈ l → get_by_id_loop (Product.id p) l = Some p.
Proof.
  induction l as [|q l IH]; simpl; intros Hnd Hp.
  - by apply elem_of_nil in Hp.
  - apply NoDup_cons in Hnd as [Hq Hnd].
    destruct (String.eqb (Product.id q) (Product.id p)) eqn:E.
    + apply String.eqb_eq in E. apply elem_of_cons in Hp as [-> | Hp]; [done |].
      exfalso. apply Hq. rewrite E. apply list_elem_of_fmap. eauto.
    + apply String.eqb_neq in E. apply elem_of_cons in Hp as [-> | Hp]; [done |].
      by apply IH.
Qed.

Lemma to_prestashop_row_keys p :
  dict_keys (to_prestashop_row p) = header_row.
Proof. reflexivity. Qed.

Lemma join_two_nonempty sep c (a b : string) l :
  join (String c sep) (a :: b :: l) ≠ EmptyString.
Proof.
  unfold join. simpl. destruct a; [rewrite append_nil_l | rewrite append_cons];
    discriminate.
Qed.

Lemma writer_writerow_line c1 c2 cells :
  writer_writerow float_str (c1 :: c2 :: cells)
  = csv_line (cell_text float_str <$> (c1 :: c2 :: cells)).
Proof.
  unfold writer_writerow, csv_line.
  destruct (join ";" _) eqn:E; [| done].
  exfalso. revert E. rewrite !fmap_cons. apply join_two_nonempty.
Qed.

Lemma writeheader_run w :
  DictWriter_writeheader float_str header_row w = (Ok (csv_line header_row), w).
Proof. reflexivity. Qed.

Lemma writerow_run p w :
  DictWriter_writerow float_str header_row (to_prestashop_row p) w
  = (Ok (csv_line (cell_text float_str <$> (to_prestashop_row p).*2)), w).
Proof.
  unfold DictWriter_writerow.
  rewrite to_prestashop_row_keys.
  replace (forallb _ header_row) with true by reflexivity.
  unfold ret. f_equal. f_equal. unfold header_row. rewrite !fmap_cons.
  by rewrite writer_writerow_line.
Qed.

Lemma row_values_data_row p :
  price_not_falsy p →
  cell_text float_str <$> (to_prestashop_row p).*2 = data_row p.
Proof.
  intros Hprice. unfold to_prestashop_row, main.data_row. simpl.
  rewrite !or_empty_default.
  destruct (Product.price p) as [x|] eqn:Ex; simpl; [| done].
  by rewrite (Hprice x Ex).
Qed.

Lemma export_prestashop_csv_found product_id p w :
  get_by_id_loop product_id (db_products w) = Some p →
  export_prestashop_csv product_id w
  = (Ok (Response
           (csv_line header_row
              +:+ csv_line (cell_text float_str <$> (to_prestashop_row p).*2))
           "text/csv"
           [("Content-Disposition",
             "attachment; filename=" +:+ "fiche_" +:+ Product.id p +:+ ".csv")]), w).
Proof.
  intros Hget. unfold main.export_prestashop_csv, get_by_id.
  unfold bind at 1. rewrite Hget. rewrite to_prestashop_row_keys.
  unfold bind at 1. rewrite writeheader_run.
  unfold bind at 1. rewrite writerow_run.
  reflexivity.
Qed.

Lemma export_prestashop_csv_missing product_id w :
  get_by_id_loop product_id (db_products w) = None →
  export_prestashop_csv product_id w
  = (Raise (HTTPException 404 "Produit non trouvé"), w).
Proof.
  intros Hget. unfold main.export_prestashop_csv, get_by_id.
  unfold bind at 1. by rewrite Hget.
Qed.

Lemma export_prestashop_csv_world product_id w :
  (export_prestashop_csv product_id w).2 = w.
Proof.
  destruct (get_by_id_loop product_id (db_products w)) as [p|] eqn:E.
  - by rewrite (export_prestashop_csv_found _ _ _ E).
  - by rewrite (export_prestashop_csv_missing _ _ E).
Qed.

(** A list object made by [get_all] holds the products of that moment. *)
Lemma get_all_run w :
  get_all w
  = (Ok (fresh (dom (heap w))),
     mkWorld (db_products w) (<[fresh (dom (heap w)) := db_products w]> (heap w))
       (trace w)).
Proof. reflexivity. Qed.

Lemma heap_fresh_None (w : World) : heap w !! fresh (dom (heap w)) = None.
Proof. apply not_elem_of_dom, is_fresh. Qed.

#[local] Abbreviation handle :=
  (handle str_lower float_str translate_answer uuid4_answer now_answer).
#[local] Abbreviation serve :=
  (serve str_lower float_str translate_answer uuid4_answer now_answer).
#[local] Abbreviation reachable :=
  (reachable str_lower float_str translate_answer uuid4_answer now_answer).

(** The routes that only read the store. *)
Lemma reader_run (k : list Product.t → response) w :
  (do a <- get_all ;; do products <- read_list a ;; ret (k products)) w
  = (Ok (k (db_products w)),
     mkWorld (db_products w) (<[fresh (dom (heap w)) := db_products w]> (heap w))
       (trace w)).
Proof.
  unfold bind, get_all, read_list, ret. simpl. by rewrite lookup_insert_eq.
Qed.

(** What one request does to the world: either the store is as before, or
    it is a valid search and its product was appended; the log only grows;
    list objects handed out earlier stay as they are. *)
Lemma handle_effect r w :
  (db_products (handle r w).2 = db_products w ∧
   (∀ p, (handle r w).1 ≠ Ok (JSONResponse (SearchResult p))) ∧
   trace (handle r w).2 = trace w
   ∨
   ∃ payload,
     r = POST_api_search payload ∧
     opt_bool (SearchRequest.ean payload) || opt_bool (SearchRequest.sku payload) = true ∧
     (handle r w).1 = Ok (JSONResponse (SearchResult (new_product payload (trace w)))) ∧
     db_products (handle r w).2 = db_products w ++ [new_product payload (trace w)] ∧
     trace (handle r w).2 = trace w ++ lookup_events payload ++ [EvUuid4; EvNow])
  ∧ heap w ⊆ heap (handle r w).2.
Proof.
  destruct r as [|payload| |product_id|]; unfold main.handle.
  - unfold home. rewrite (reader_run (TemplateResponse "index.html")). simpl. split.
    + left. done.
    + apply insert_subseteq, heap_fresh_None.
  - destruct (opt_bool (SearchRequest.ean payload) || opt_bool (SearchRequest.sku payload))
      eqn:Hv.
    + rewrite (search_product_run _ _ Hv). simpl. split; [| done].
      right. exists payload. done.
    + apply orb_false_iff in Hv as [He Hs].
      rewrite (search_product_invalid _ _ He Hs). simpl. split; [| done].
      left. done.
  - unfold get_products. rewrite (reader_run (fun l => JSONResponse (ProductList l))).
    simpl. split.
    + left. done.
    + apply insert_subseteq, heap_fresh_None.
  - rewrite export_prestashop_csv_world. split; [| done]. left.
    split; [done |]. split; [| done].
    intros p. destruct (get_by_id_loop product_id (db_products w)) as [q|] eqn:E.
    + by rewrite (export_prestashop_csv_found _ _ _ E).
    + by rewrite (export_prestashop_csv_missing _ _ E).
  - unfold health_check.
    rewrite (reader_run (fun l => JSONResponse (Health "OK" (length l)))).
    simpl. split.
    + left. done.
    + apply insert_subseteq, heap_fresh_None.
Qed.

(** *** Invariants of reachable worlds *)

#[local] Abbreviation uuid4_never_repeats := (uuid4_never_repeats uuid4_answer).
#[local] Abbreviation ids_generated := (ids_generated uuid4_answer).
#[local] Abbreviation store_invariant := (store_invariant uuid4_answer).

Lemma new_id_fresh w evs q :
  uuid4_never_repeats → ids_generated w → q ∈ db_products w →
  Product.id q ≠ uuid4_answer (trace w ++ evs).
Proof.
  intros Hu Hg Hq Heq. destruct (Hg q Hq) as (tr & more & Htr & Hid).
  apply (Hu tr (more ++ evs)). rewrite <- Hid, Heq, Htr, <- app_assoc. done.
Qed.

Lemma new_product_id payload tr :
  Product.id (new_product payload tr) = uuid4_answer (tr ++ lookup_events payload).
Proof. reflexivity. Qed.

Lemma new_product_description payload tr :
  ∃ s, Product.description (new_product payload tr) = s +:+ ".".
Proof. apply with_final_period_ends. Qed.

Lemma new_product_price payload tr : price_not_falsy (new_product payload tr).
Proof. intros x. simpl. discriminate. Qed.

Lemma handle_preserves_invariant r w :
  uuid4_never_repeats → store_invariant w → store_invariant (handle r w).2.
Proof.
  intros Hu (Hg & Hnd & Hpr).
  destruct (handle_effect r w) as [[(Hdb & _ & Htr) | (payload & _ & _ & _ & Hdb & Htr)] _].
  - unfold main.store_invariant, main.ids_generated. by rewrite Hdb, Htr.
  - unfold main.store_invariant, main.ids_generated. rewrite Hdb, Htr.
    split; [| split].
    + intros p [Hp | ->%list_elem_of_singleton]%elem_of_app.
      * destruct (Hg p Hp) as (tr & more & Etr & Eid).
        exists tr, (more ++ lookup_events payload ++ [EvUuid4; EvNow]).
        rewrite Etr, <- app_assoc. done.
      * exists (trace w ++ lookup_events payload), [EvNow].
        rewrite <- app_assoc. done.
    + rewrite fmap_app. apply NoDup_app. split; [done |]. split.
      * intros x (q & -> & Hq)%list_elem_of_fmap Hx.
        apply list_elem_of_singleton in Hx.
        by apply (new_id_fresh w (lookup_events payload) q).
      * apply NoDup_singleton.
    + apply Forall_app. split; [done |].
      apply Forall_singleton, new_product_price.
Qed.

Lemma reachable_invariant w :
  uuid4_never_repeats → reachable w → store_invariant w.
Proof.
  intros Hu Hr. induction Hr as [|w r Hr IH].
  - split; [| split].
    + intros p Hp. by apply elem_of_nil in Hp.
    + apply NoDup_nil_2.
    + apply Forall_nil_2.
  - by apply handle_preserves_invariant.
Qed.

(** *** Serving a run of requests *)

Lemma serve_cons r rs w :
  serve (r :: rs) w
  = ((handle r w).1 :: (serve rs (handle r w).2).1, (serve rs (handle r w).2).2).
Proof.
  simpl. destruct (handle r w) as [out w1]. simpl.
  by destruct (main.serve _ _ _ _ _ rs w1).
Qed.

Lemma serve_effect rs w :
  db_products (serve rs w).2 = db_products w ++ created_products (serve rs w).1 ∧
  length (created_products (serve rs w).1) = length (filter valid_search rs) ∧
  heap w ⊆ heap (serve rs w).2.
Proof.
  revert w. induction rs as [|r rs IH]; intros w.
  - simpl. by rewrite app_nil_r.
  - rewrite serve_cons. simpl.
    destruct (IH (handle r w).2) as (IHdb & IHlen & IHheap).
    destruct (handle_effect r w) as [Heff Hheap].
    split; [| split]; [| | by etrans].
    + rewrite IHdb. destruct Heff as [(Hdb & Hno & _) | (payload & -> & _ & Hout & Hdb & _)].
      * rewrite Hdb. f_equal.
        assert (created_product (handle r w).1 = []) as ->; [| done].
        destruct (handle r w).1 as [[| [] |]|]; try done. by destruct (Hno product).
      * rewrite Hdb, Hout, <- app_assoc. done.
    + rewrite length_app, IHlen, filter_cons.
      destruct Heff as [(Hdb & Hno & _) | (payload & -> & Hv & Hout & _ & _)].
      * assert (created_product (handle r w).1 = []) as ->.
        { destruct (handle r w).1 as [[| [] |]|]; try done. by destruct (Hno product). }
        assert (valid_search r = false) as Hf.
        { destruct r as [|payload| | |]; try done. simpl.
          destruct (opt_bool (SearchRequest.ean payload) || opt_bool (SearchRequest.sku payload))
            eqn:Hv; [| done].
          exfalso. apply (Hno (new_product payload (trace w))).
          unfold main.handle. by rewrite (search_product_run _ _ Hv). }
        rewrite decide_False; [done |]. rewrite Hf. by intros [].
      * rewrite Hout. rewrite decide_True; [done |]. simpl. by rewrite Hv.
Qed.

(** *** The search route *)

(** C1. A search that supplies an EAN or a SKU answers with the product it
    stores; the description is not empty and ends with a period; the
    identifier is the value drawn from the UUID generator during this
    request and, the generator never repeating itself, differs from the
    identifier of every product already stored; [search_type] is EAN when
    an EAN is supplied and SKU otherwise. *)
Theorem search_product_creates (w : World) (payload : SearchRequest.t) :
  uuid4_never_repeats →
  reachable w →
  opt_bool (SearchRequest.ean payload) || opt_bool (SearchRequest.sku payload) = true →
  ∃ product w',
    search_product payload w = (Ok (JSONResponse (SearchResult product)), w') ∧
    db_products w' = db_products w ++ [product] ∧
    Product.description product ≠ EmptyString ∧
    (∃ s, Product.description product = s +:+ ".") ∧
    (∃ before after,
        trace w' = trace w ++ before ++ EvUuid4 :: after ∧
        Product.id product = uuid4_answer (trace w ++ before)) ∧
    (∀ q, q ∈ db_products w → Product.id q ≠ Product.id product) ∧
    (opt_bool (SearchRequest.ean payload) = true → Product.search_type product = "EAN") ∧
    (opt_bool (SearchRequest.ean payload) = false → Product.search_type product = "SKU").
Proof.
  intros Hu Hr Hv. eexists _, _. split; [by apply search_product_run |].
  destruct (reachable_invariant w Hu Hr) as (Hg & _ & _).
  destruct (new_product_description payload (trace w)) as [s Hs].
  cbn [db_products trace]. split; [done |].
  split; [rewrite Hs; apply append_nonempty |].
  split; [by exists s |].
  split; [by exists (lookup_events payload), [EvNow] |].
  split; [intros q Hq; by apply new_id_fresh |].
  split; simpl; by intros ->.
Qed.

(** C2. A search with neither an EAN nor a SKU (absent or empty) raises
    the HTTP error 400 and leaves the world, the store with it, as it was. *)
Theorem search_product_rejects (w : World) (payload : SearchRequest.t) :
  opt_bool (SearchRequest.ean payload) = false →
  opt_bool (SearchRequest.sku payload) = false →
  ∃ detail,
    search_product payload w = (Raise (HTTPException 400 detail), w) ∧
    db_products (search_product payload w).2 = db_products w.
Proof.
  intros He Hs. eexists. rewrite (search_product_invalid _ _ He Hs). done.
Qed.

(** C10. When both codes are supplied, the only lookup made is the one by
    EAN, the SKU lookup is not called, and the stored product records the
    EAN as its search term. *)
Theorem search_product_prefers_ean (w : World) (ean sku : string) :
  ean ≠ EmptyString →
  sku ≠ EmptyString →
  ∃ product w' calls,
    search_product (SearchRequest.mk (Some ean) (Some sku)) w
      = (Ok (JSONResponse (SearchResult product)), w') ∧
    trace w' = trace w ++ calls ∧
    EvLookupEan ean ∈ calls ∧
    (∀ x, EvLookupSku x ∉ calls) ∧
    last (db_products w') = Some product ∧
    Product.search_term product = ean.
Proof.
  intros He Hs.
  assert (Hb : str_bool ean = true) by by apply str_bool_true.
  eexists _, _, _. split.
  { apply search_product_run. simpl. by rewrite Hb. }
  unfold lookup_events. simpl. rewrite Hb. simpl.
  split; [done |]. split; [left |]. split.
  - intros x Hx. repeat (apply elem_of_cons in Hx as [Hx | Hx]; [discriminate |]).
    by apply elem_of_nil in Hx.
  - split; [by rewrite last_snoc | done].
Qed.

(** *** The export route *)


(** C4. The export raises the HTTP error 404 exactly when no stored
    product carries the identifier; otherwise it returns a [text/csv]
    response sent as an attachment. *)
Theorem export_prestashop_csv_not_found (w : World) (product_id : string) :
  ((∃ detail, (export_prestashop_csv product_id w).1 = Raise (HTTPException 404 detail))
   ↔ ¬ ∃ p, p ∈ db_products w ∧ Product.id p = product_id) ∧
  ((∃ p, p ∈ db_products w ∧ Product.id p = product_id) →
   ∃ csv_data,
     (export_prestashop_csv product_id w).1
     = Ok (Response csv_data "text/csv"
             [("Content-Disposition",
               "attachment; filename=" +:+ "fiche_" +:+ product_id +:+ ".csv")])).
Proof.
  destruct (get_by_id_loop product_id (db_products w)) as [q|] eqn:E.
  - rewrite (export_prestashop_csv_found _ _ _ E). simpl.
    apply get_by_id_loop_Some in E as [Hq Hid]. split.
    + split; [by intros [? ?] | intros H; destruct H; eauto].
    + intros _. rewrite Hid. eauto.
  - rewrite (export_prestashop_csv_missing _ _ E). simpl.
    pose proof (proj1 (get_by_id_loop_None _ _) E) as Hno. split.
    + split; [| eauto]. intros _ (p & Hp & Hid). by apply (Hno p).
    + intros (p & Hp & Hid). by destruct (Hno p Hp).
Qed.

(** *** The store *)

(** C7. From the empty store, after any run of requests [get_all] returns
    the products answered by the successful searches, in that order and
    as many as there were valid searches; the list it returns is an object
    of its own, which later requests leave as it is. *)
Theorem get_all_after_searches (rs : list request) :
  let outs := (serve rs init_world).1 in
  let w := (serve rs init_world).2 in
  length (created_products outs) = length (filter valid_search rs) ∧
  ∃ a w1,
    get_all w = (Ok a, w1) ∧
    read_list a w1 = (Ok (created_products outs), w1) ∧
    ∀ rs', read_list a (serve rs' w1).2 = (Ok (created_products outs), (serve rs' w1).2).
Proof.
  intros outs w. destruct (serve_effect rs init_world) as (Hdb & Hlen & _).
  fold outs w in Hdb, Hlen. simpl in Hdb. split; [done |].
  eexists _, _. split; [apply get_all_run |].
  unfold read_list. simpl. rewrite lookup_insert_eq, <- Hdb. split; [done |].
  intros rs'.
  set (w1 := mkWorld _ _ _).
  destruct (serve_effect rs' w1) as (_ & _ & Hsub).
  assert (heap (serve rs' w1).2 !! fresh (dom (heap w)) = Some (db_products w)) as ->;
    [| done].
  eapply lookup_weaken; [| exact Hsub]. apply lookup_insert_eq.
Qed.

(** *** The description generator *)

Lemma features_events_all (features : option (list string)) :
  features_events features = EvTranslate <$> default [] features.
Proof. by destruct features as [[|f fs]|]. Qed.

Lemma features_fr_from_length tr features :
  length (features_fr_from tr features) = length features.
Proof.
  revert tr. induction features as [|f fs IH]; intros tr; simpl; [done | by rewrite IH].
Qed.

Lemma features_fr_from_lookup tr features i feat :
  features !! i = Some feat →
  features_fr_from tr features !! i
  = Some (translated_or_original (tr ++ (EvTranslate <$> take i features)) feat).
Proof.
  revert tr i. induction features as [|f fs IH]; intros tr i Hi; [done |].
  destruct i as [|i]; simpl in *.
  - injection Hi as ->. by rewrite app_nil_r.
  - rewrite (IH _ _ Hi), <- app_assoc. done.
Qed.

Lemma translated_or_original_None tr text :
  translated_or_original tr text = None ↔ translate_answer tr text = inl None.
Proof.
  unfold main.translated_or_original.
  destruct (translate_answer tr text) as [[fr|]|msg]; split; congruence.
Qed.

Lemma join_items_inl i items j :
  join_items i items = inl j → ∃ k, items !! k = Some None.
Proof.
  revert i j. induction items as [|[x|] items IH]; intros i j; simpl; [done | |].
  - destruct (join_items (S i) items) eqn:E; [| done].
    intros _. destruct (IH _ _ E) as [k Hk]. by exists (S k).
  - intros _. by exists 0.
Qed.

Lemma join_items_inr i items l :
  join_items i items = inr l → items = Some <$> l.
Proof.
  revert i l. induction items as [|[x|] items IH]; intros i l; simpl.
  - by intros [= <-].
  - destruct (join_items (S i) items) eqn:E; [done |].
    intros [= <-]. by rewrite (IH _ _ E).
  - done.
Qed.

(** The features: the join raises exactly when some answer is [None]. *)
Lemma features_part_cases tr features :
  (∃ msg i feat,
      features_part tr features = Raise (TypeError msg) ∧
      default [] features !! i = Some feat ∧
      translate_answer (tr ++ (EvTranslate <$> take i (default [] features))) feat
      = inl None)
  ∨
  (∃ features_fr,
      features_part tr features
      = Ok (if opt_list_bool features then
              ["Caractéristiques principales : " +:+ join "; " features_fr +:+ "."]
            else []) ∧
      features_fr_from tr (default [] features) = Some <$> features_fr).
Proof.
  unfold main.features_part, join_result.
  destruct (join_items 0 (features_fr_from tr (default [] features))) as [j | l] eqn:E.
  - left. destruct (join_items_inl _ _ _ E) as [k Hk].
    destruct (default [] features !! k) as [feat|] eqn:Hfeat.
    + rewrite (features_fr_from_lookup _ _ _ _ Hfeat) in Hk.
      injection Hk as Hk. apply translated_or_original_None in Hk.
      destruct (opt_list_bool features) eqn:Ef.
      * eexists _, k, feat. split; [reflexivity | done].
      * destruct features as [[|f fs]|]; done.
    + apply lookup_ge_None in Hfeat. rewrite <- (features_fr_from_length tr) in Hfeat.
      apply lookup_ge_None in Hfeat. congruence.
  - right. exists l. split; [destruct (opt_list_bool features); reflexivity |].
    by apply (join_items_inr 0).
Qed.

Lemma features_fr_Some_lookup tr features features_fr i feat :
  features_fr_from tr features = Some <$> features_fr →
  features !! i = Some feat →
  translate_answer (tr ++ (EvTranslate <$> take i features)) feat
  = inl (features_fr !! i) ∧ is_Some (features_fr !! i)
  ∨ (∃ msg, translate_answer (tr ++ (EvTranslate <$> take i features)) feat = inr msg)
    ∧ features_fr !! i = Some feat.
Proof.
  intros Hfr Hi. pose proof (features_fr_from_lookup tr _ _ _ Hi) as Hl.
  rewrite Hfr, list_lookup_fmap in Hl. unfold main.translated_or_original in Hl.
  destruct (features_fr !! i) as [x|] eqn:Hx; [| done]. simpl in Hl.
  destruct (translate_answer _ feat) as [[fr|]|msg]; [| done |].
  - left. split; [congruence | eauto].
  - right. split; [eauto | congruence].
Qed.

(** C5, at the input on which the code fails.  When the translator
    returns [None] for a feature, the list handed to the join holds it,
    and the generator raises a [TypeError]: the join stands outside the
    [try] that guards the translation. *)
Theorem generate_french_description_raises_on_None
    (w : World) (name : string) (brand category : option string)
    (features : list string) (english_desc : option string)
    (i : nat) (feat : string) :
  features !! i = Some feat →
  translate_answer (trace w ++ (EvTranslate <$> take i features)) feat = inl None →
  ∃ msg,
    (generate_french_description name brand category (Some features) english_desc w).1
    = Raise (TypeError msg).
Proof.
  intros Hi HNone. rewrite generate_french_description_run.
  unfold main.description_outcome. cbn [fst].
  destruct (features_part_cases (trace w) (Some features))
    as [(msg & _ & _ & -> & _) | (features_fr & _ & Hfr)]; [by exists msg |].
  exfalso. change (default [] (Some features)) with features in Hfr.
  destruct (features_fr_Some_lookup _ _ _ _ _ Hfr Hi) as [[Ha [x Hx]] | [[msg Ha] _]].
  - rewrite Ha, Hx in HNone. done.
  - rewrite Ha in HNone. done.
Qed.

(** C6, as amended.  When no translation call returns [None], the
    description is the sentences joined with single spaces, in this order:
    the opening sentence when the name is not empty (with the brand when
    there is one), the category sentence when there is a category, the
    features sentence when there are features (each feature translated, or
    as it was when its translation raised), the English text, translated
    or not, when there is one; a period is appended exactly when that text
    does not end with one. *)
Theorem generate_french_description_layout
    (w : World) (name : string) (brand category : option string)
    (features : option (list string)) (english_desc : option string) :
  (∀ i feat, default [] features !! i = Some feat →
     translate_answer (trace w ++ (EvTranslate <$> take i (default [] features))) feat
     ≠ inl None) →
  (opt_bool english_desc = true →
     translate_answer (trace w ++ (EvTranslate <$> default [] features))
       (unwrap english_desc) ≠ inl None) →
  ∃ features_fr english_fr description,
    (generate_french_description name brand category features english_desc w).1
    = Ok description ∧
    length features_fr = length (default [] features) ∧
    (∀ i feat, default [] features !! i = Some feat →
       match translate_answer
               (trace w ++ (EvTranslate <$> take i (default [] features))) feat with
       | inl fr => features_fr !! i = fr
       | inr _ => features_fr !! i = Some feat
       end) ∧
    (opt_bool english_desc = true →
       match translate_answer (trace w ++ (EvTranslate <$> default [] features))
               (unwrap english_desc) with
       | inl fr => Some english_fr = fr
       | inr _ => english_fr = unwrap english_desc
       end) ∧
    let text :=
      join " "
        ((if str_bool name then
            if opt_bool brand then
              ["Découvrez " +:+ name +:+ " de la marque " +:+ unwrap brand +:+ "."]
            else ["Découvrez " +:+ name +:+ "."]
          else []) ++
         (if opt_bool category then
            ["Il s'agit d'un(e) " +:+ str_lower (unwrap category) +:+ "."]
          else []) ++
         (if opt_list_bool features then
            ["Caractéristiques principales : " +:+ join "; " features_fr +:+ "."]
          else []) ++
         (if opt_bool english_desc then [english_fr] else [])) in
    ((∃ s, text = s +:+ ".") → description = text) ∧
    ((¬ ∃ s, text = s +:+ ".") → description = text +:+ ".").
Proof.
  intros Hfeat Heng. rewrite generate_french_description_run.
  unfold main.description_outcome. cbn [fst].
  destruct (features_part_cases (trace w) features)
    as [(msg & i & feat & _ & Hi & HNone) | (features_fr & -> & Hfr)];
    [by destruct (Hfeat i feat Hi) |].
  rewrite features_events_all.
  assert (∃ english_fr,
            english_part (trace w ++ (EvTranslate <$> default [] features)) english_desc
            = Some <$> (if opt_bool english_desc then [english_fr] else []) ∧
            (opt_bool english_desc = true →
               match translate_answer (trace w ++ (EvTranslate <$> default [] features))
                       (unwrap english_desc) with
               | inl fr => Some english_fr = fr
               | inr _ => english_fr = unwrap english_desc
               end)) as (english_fr & -> & Henglish).
  { unfold main.english_part, main.translated_or_original.
    destruct (opt_bool english_desc) eqn:Ee; [| by exists EmptyString].
    specialize (Heng eq_refl).
    destruct (translate_answer _ (unwrap english_desc)) as [[fr|]|msg] eqn:Ea.
    - by exists fr.
    - done.
    - by exists (unwrap english_desc). }
  rewrite <- fmap_app, join_result_Some, <- !app_assoc.
  exists features_fr, english_fr. eexists. split; [reflexivity |].
  split.
  { rewrite <- (features_fr_from_length (trace w) (default [] features)), Hfr.
    by rewrite length_fmap. }
  split.
  { intros i feat Hi.
    destruct (features_fr_Some_lookup _ _ _ _ _ Hfr Hi) as [[-> _] | [[msg ->] Hl]]; done. }
  split; [exact Henglish |].
  fold (opening_sentence name brand) (category_sentence str_lower category).
  cbv zeta. unfold with_final_period.
  destruct (endswith _ ".") eqn:E.
  - split; [done |]. intros H. destruct H. by apply endswith_spec.
  - split; [| done]. intros H%endswith_spec. congruence.
Qed.

(** *** The PrestaShop call *)

#[local] Abbreviation create_product_in_prestashop :=
  (create_product_in_prestashop float_str post_answer
     PRESTASHOP_BASE_URL PRESTASHOP_API_KEY).

(** C8. Without a base URL or without an API key the call raises a
    [RuntimeError] at once: the world is unchanged, so no request was sent. *)
Theorem create_product_in_prestashop_unconfigured (w : World) (product : Product.t) :
  opt_bool PRESTASHOP_BASE_URL = false ∨ opt_bool PRESTASHOP_API_KEY = false →
  ∃ msg,
    create_product_in_prestashop product w = (Raise (RuntimeError msg), w) ∧
    (∀ url body key, EvPost url body key ∉ drop (length (trace w))
                       (trace (create_product_in_prestashop product w).2)).
Proof.
  intros H. eexists.
  assert (negb (opt_bool PRESTASHOP_BASE_URL) || negb (opt_bool PRESTASHOP_API_KEY) = true)
    as Hc by (destruct H as [-> | ->]; [done | apply orb_true_r]).
  unfold main.create_product_in_prestashop. rewrite Hc.
  split; [reflexivity |]. intros url body key. simpl.
  rewrite drop_all. apply not_elem_of_nil.
Qed.

(** C9, as amended.  With both settings present the call sends exactly one
    request.  If the request raises, the caller gets the HTTP error 500
    with the cause in its detail; if the remote status is neither 200 nor
    201, the caller gets an HTTP error with that very status and the remote
    text in its detail; otherwise the call returns. *)
Theorem create_product_in_prestashop_single_call (w : World) (product : Product.t) :
  opt_bool PRESTASHOP_BASE_URL = true →
  opt_bool PRESTASHOP_API_KEY = true →
  let url := unwrap PRESTASHOP_BASE_URL +:+ "/api/products" in
  let body := product_xml float_str product in
  let key := unwrap PRESTASHOP_API_KEY in
  let out := create_product_in_prestashop product w in
  out.2 = log_events [EvPost url body key] w ∧
  (∀ cause, post_answer (trace w) url body key = inr cause →
     out.1 = Raise (HTTPException 500
                      ("Erreur lors de l'appel à PrestaShop : " +:+ cause))) ∧
  (∀ r, post_answer (trace w) url body key = inl r →
     status_code r ≠ 200%Z → status_code r ≠ 201%Z →
     out.1 = Raise (HTTPException (status_code r)
                      ("Erreur API PrestaShop: " +:+ text r))) ∧
  (∀ r, post_answer (trace w) url body key = inl r →
     status_code r = 200%Z ∨ status_code r = 201%Z → out.1 = Ok tt).
Proof.
  intros Hb Hk url body key out. subst out.
  unfold main.create_product_in_prestashop. rewrite Hb, Hk. simpl.
  fold url body key. unfold bind, try_except, requests_post.
  destruct (post_answer (trace w) url body key) as [r | cause] eqn:E; mrun.
  - destruct (Z.eqb_spec (status_code r) 200) as [E200 | N200];
      destruct (Z.eqb_spec (status_code r) 201) as [E201 | N201]; simpl;
      (split; [reflexivity |]); (split; [done |]); split;
      intros r' [= <-]; intros; first [done | lia].
  - split; [reflexivity |]. split; [by intros c [= <-] |]. split; done.
Qed.

(** ** Further properties of the module *)

(** *** The generator, for every input *)

Lemma with_final_period_fixed (s : string) :
  with_final_period (s +:+ ".") = s +:+ ".".
Proof.
  unfold with_final_period.
  assert (endswith (s +:+ ".") "." = true) as -> by (apply endswith_spec; eauto).
  done.
Qed.

Lemma join_items_app_None i (l : list string) :
  join_items i ((Some <$> l) ++ [None]) = inl (i + length l).
Proof.
  revert i. induction l as [|x l IH]; intros i; simpl.
  - f_equal. lia.
  - rewrite IH. f_equal. lia.
Qed.

Lemma english_part_cases tr english_desc :
  (opt_bool english_desc = true ∧
   translate_answer tr (unwrap english_desc) = inl None ∧
   english_part tr english_desc = [None])
  ∨
  (¬ (opt_bool english_desc = true ∧
      translate_answer tr (unwrap english_desc) = inl None) ∧
   ∃ l, english_part tr english_desc = Some <$> l).
Proof.
  unfold main.english_part, main.translated_or_original.
  destruct (opt_bool english_desc).
  - destruct (translate_answer tr (unwrap english_desc)) as [[fr|]|msg].
    + right. split; [by intros [_ ?] | by exists [fr]].
    + by left.
    + right. split; [by intros [_ ?] | by exists [unwrap english_desc]].
  - right. split; [by intros [? _] | by exists []].
Qed.

(** X1. The generator raises exactly when a translation call it makes
    returns [None]: the [None] reaches a join, which raises a [TypeError].
    In every other case, a translator that raises included, it returns a
    text that is not empty and ends with a period. *)
Theorem generate_french_description_outcome
    (w : World) (name : string) (brand category : option string)
    (features : option (list string)) (english_desc : option string) :
  let feats := default [] features in
  let out :=
    (generate_french_description name brand category features english_desc w).1 in
  let none_answer :=
    (∃ i feat, feats !! i = Some feat ∧
       translate_answer (trace w ++ (EvTranslate <$> take i feats)) feat = inl None)
    ∨ (opt_bool english_desc = true ∧
       translate_answer (trace w ++ (EvTranslate <$> feats)) (unwrap english_desc)
       = inl None) in
  (none_answer → ∃ msg, out = Raise (TypeError msg)) ∧
  (¬ none_answer →
     ∃ description, out = Ok description ∧ description ≠ EmptyString ∧
                    ∃ s, description = s +:+ ".").
Proof.
  intros feats out none_answer. subst out none_answer feats.
  rewrite generate_french_description_run.
  unfold main.description_outcome. cbn [fst]. rewrite features_events_all.
  destruct (features_part_cases (trace w) features)
    as [(msg & i & feat & -> & Hi & HNone) | (features_fr & -> & Hfr)].
  { split; [by exists msg |]. intros Hno. destruct Hno. left. eauto. }
  destruct (english_part_cases (trace w ++ (EvTranslate <$> default [] features))
              english_desc) as [(He & Ha & ->) | (Hno & l & ->)].
  - unfold join_result. rewrite join_items_app_None.
    split; [eauto |]. intros Hno. destruct Hno. by right.
  - rewrite <- fmap_app, join_result_Some. split.
    + intros [(i & feat & Hi & HNone) | Hen]; [| done]. exfalso.
      destruct (features_fr_Some_lookup _ _ _ _ _ Hfr Hi) as [[Ha [x Hx]] | [[msg Ha] _]].
      * rewrite Ha, Hx in HNone. done.
      * rewrite Ha in HNone. done.
    + intros _. eexists. split; [reflexivity |].
      match goal with
      | |- context [with_final_period ?t] =>
          destruct (with_final_period_ends t) as [s Hs]
      end.
      rewrite Hs. split; [apply append_nonempty | by exists s].
Qed.

(** X2. The generator calls the translator once for each feature, in
    order, a failed call not being tried again.  When one of these calls
    returned [None] it stops there, at the join; otherwise it goes on to
    call the translator once for the English text when there is one.  It
    makes no other call and leaves the store and the list objects alone. *)
Theorem generate_french_description_calls
    (w : World) (name : string) (brand category : option string)
    (features : option (list string)) (english_desc : option string) :
  let feats := default [] features in
  let w' :=
    (generate_french_description name brand category features english_desc w).2 in
  let feature_None :=
    ∃ i feat, feats !! i = Some feat ∧
      translate_answer (trace w ++ (EvTranslate <$> take i feats)) feat = inl None in
  db_products w' = db_products w ∧
  heap w' = heap w ∧
  (feature_None → trace w' = trace w ++ (EvTranslate <$> feats)) ∧
  (¬ feature_None →
     trace w' = trace w ++ (EvTranslate <$> feats) ++
                (if opt_bool english_desc
                 then [EvTranslate (unwrap english_desc)] else [])).
Proof.
  intros feats w' feature_None. subst w' feature_None feats.
  rewrite generate_french_description_run.
  unfold main.description_events. cbn [snd log_events db_products heap trace].
  rewrite features_events_all.
  split; [done |]. split; [done |].
  destruct (features_part_cases (trace w) features)
    as [(msg & i & feat & -> & Hi & HNone) | (features_fr & -> & Hfr)].
  - split; [done |]. intros Hno. destruct Hno. eauto.
  - split; [| done]. intros (i & feat & Hi & HNone). exfalso.
    destruct (features_fr_Some_lookup _ _ _ _ _ Hfr Hi) as [[Ha [x Hx]] | [[msg Ha] _]].
    + rewrite Ha, Hx in HNone. done.
    + rewrite Ha in HNone. done.
Qed.

(** X3. Inputs that are empty count as absent: an empty brand, category or
    English text and an empty list of features give the same result, and
    the same calls, as [None]. *)
Theorem generate_french_description_empty_is_absent
    (w : World) (name : string) (brand category : option string)
    (features : option (list string)) (english_desc : option string) :
  generate_french_description name (or_None brand) (or_None category)
    (list_or_None features) (or_None english_desc) w
  = generate_french_description name brand category features english_desc w.
Proof.
  rewrite !generate_french_description_run.
  assert (∀ o, opt_bool (or_None o) = opt_bool o) as Hb.
  { intros o. unfold or_None. by destruct (opt_bool o) eqn:E. }
  assert (∀ o, unwrap (or_None o) = if opt_bool o then unwrap o else EmptyString) as Hu.
  { intros o. unfold or_None. by destruct (opt_bool o). }
  assert (opt_list_bool (list_or_None features) = opt_list_bool features) as Hlb.
  { unfold list_or_None. by destruct (opt_list_bool features) eqn:E. }
  assert (default [] (list_or_None features) = default [] features) as Hld.
  { by destruct features as [[|f fs]|]. }
  assert (english_events (or_None english_desc) = english_events english_desc) as He.
  { unfold english_events. rewrite Hb, Hu. by destruct (opt_bool english_desc). }
  assert (∀ tr, english_part tr (or_None english_desc)
                = english_part tr english_desc) as Hes.
  { intros tr. unfold main.english_part. rewrite Hb, Hu.
    by destruct (opt_bool english_desc). }
  assert (opening_sentence name (or_None brand) = opening_sentence name brand) as Ho.
  { unfold opening_sentence. rewrite Hb, Hu. by destruct (opt_bool brand). }
  assert (category_sentence str_lower (or_None category)
          = category_sentence str_lower category) as Hc.
  { unfold category_sentence. rewrite Hb, Hu. by destruct (opt_bool category). }
  assert (∀ tr, features_part tr (list_or_None features) = features_part tr features)
    as Hfp.
  { intros tr. unfold main.features_part. by rewrite Hlb, Hld. }
  unfold main.description_outcome, main.description_events.
  rewrite !features_events_all, Hld, Hfp, He, Hes, Ho, Hc. done.
Qed.

(** *** The product a search creates *)

Lemma valid_search_term (payload : SearchRequest.t) :
  opt_bool (SearchRequest.ean payload) || opt_bool (SearchRequest.sku payload) = true →
  str_or (SearchRequest.ean payload) (str_or (SearchRequest.sku payload) empty_str)
  = (if opt_bool (SearchRequest.ean payload) then unwrap (SearchRequest.ean payload)
     else unwrap (SearchRequest.sku payload)) ∧
  str_bool (str_or (SearchRequest.ean payload)
              (str_or (SearchRequest.sku payload) empty_str)) = true.
Proof.
  destruct payload as [[e|] [k|]]; simpl; intros H.
  - destruct (str_bool e) eqn:E; [done |]. simpl in H. by rewrite H.
  - rewrite orb_false_r in H. by rewrite H.
  - by rewrite H.
  - done.
Qed.

Lemma opening_sentence_bare (name : string) :
  str_bool name = true →
  opening_sentence name None = ["Découvrez " +:+ name +:+ "."].
Proof. intros H. unfold opening_sentence. by rewrite H. Qed.

(** X4. The sheet of a valid search is the generic one: the search term
    is the EAN when there is one and the SKU otherwise, and is not empty;
    the name is "Produit", the search type and the term; the description
    is "Découvrez", the name and a period; the codes are stored as they
    were sent and every other optional field is empty.  The name
    "Produit inconnu" is never used. *)
Theorem search_product_generic_sheet (w : World) (payload : SearchRequest.t) :
  opt_bool (SearchRequest.ean payload) || opt_bool (SearchRequest.sku payload) = true →
  ∃ product,
    (search_product payload w).1 = Ok (JSONResponse (SearchResult product)) ∧
    Product.search_term product
    = (if opt_bool (SearchRequest.ean payload) then unwrap (SearchRequest.ean payload)
       else unwrap (SearchRequest.sku payload)) ∧
    Product.search_term product ≠ EmptyString ∧
    Product.name product
    = "Produit " +:+ Product.search_type product +:+ " " +:+ Product.search_term product ∧
    Product.description product = "Découvrez " +:+ Product.name product +:+ "." ∧
    Product.ean product = SearchRequest.ean payload ∧
    Product.sku product = SearchRequest.sku payload ∧
    Product.brand product = None ∧ Product.category product = None ∧
    Product.price product = None ∧ Product.original_price product = None ∧
    Product.features product = None ∧ Product.image product = None ∧
    Product.material product = None ∧ Product.type product = None.
Proof.
  intros Hv. eexists. rewrite (search_product_run _ _ Hv).
  split; [reflexivity |].
  destruct (valid_search_term payload Hv) as [Hterm Hne].
  unfold main.new_product. cbn [Product.search_term Product.name Product.search_type
    Product.description Product.ean Product.sku Product.brand Product.category
    Product.price Product.original_price Product.features Product.image
    Product.material Product.type].
  rewrite Hne. split; [exact Hterm |]. split; [by apply str_bool_true |].
  split; [done |]. split; [| done].
  rewrite opening_sentence_bare by done.
  change (join " " [?x]) with x.
  rewrite <- (append_assoc "Découvrez " _ "."). apply with_final_period_fixed.
Qed.

(** X5. A valid search makes three calls, in this order: one lookup, by
    EAN when an EAN is supplied and by SKU only otherwise, one draw of a
    UUID and one reading of the clock.  It calls neither the translator
    nor the remote shop, and it creates no list object. *)
Theorem search_product_calls (w : World) (payload : SearchRequest.t) :
  opt_bool (SearchRequest.ean payload) || opt_bool (SearchRequest.sku payload) = true →
  trace (search_product payload w).2
  = trace w ++ [ (if opt_bool (SearchRequest.ean payload)
                  then EvLookupEan (unwrap (SearchRequest.ean payload))
                  else EvLookupSku (unwrap (SearchRequest.sku payload)));
                 EvUuid4; EvNow ] ∧
  heap (search_product payload w).2 = heap w.
Proof.
  intros Hv. rewrite (search_product_run _ _ Hv). simpl. split; [| done].
  unfold lookup_events. destruct (opt_bool (SearchRequest.ean payload)); [done |].
  simpl in Hv. by rewrite Hv.
Qed.

(** *** Finding a product *)

Lemma get_by_id_loop_first product_id l p :
  get_by_id_loop product_id l = Some p ↔
  ∃ before after,
    l = before ++ p :: after ∧ Product.id p = product_id ∧
    ∀ q, q ∈ before → Product.id q ≠ product_id.
Proof.
  induction l as [|x l IH]; simpl.
  - split; [done | intros ([|? ?] & ? & ? & _); done].
  - destruct (String.eqb (Product.id x) product_id) eqn:E.
    + apply String.eqb_eq in E. split.
      * intros [= <-]. exists [], l. split; [done |]. split; [done |].
        intros q Hq. by apply elem_of_nil in Hq.
      * intros ([|y before] & after & Hl & Hid & Hno); simpl in Hl.
        -- injection Hl as Hx _. by rewrite Hx.
        -- injection Hl as Hx _. exfalso. apply (Hno x); [rewrite Hx; left | done].
    + apply String.eqb_neq in E. rewrite IH. split.
      * intros (before & after & -> & Hid & Hno).
        exists (x :: before), after. split; [done |]. split; [done |].
        intros q [-> | Hq]%elem_of_cons; [done | by apply Hno].
      * intros ([|y before] & after & Hl & Hid & Hno); simpl in Hl.
        -- injection Hl as Hx _. congruence.
        -- injection Hl as Hx Hl. exists before, after. split; [done |].
           split; [done |]. intros q Hq. apply Hno. by right.
Qed.

Lemma get_by_id_loop_app product_id l l' p :
  get_by_id_loop product_id l = Some p →
  get_by_id_loop product_id (l ++ l') = Some p.
Proof.
  induction l as [|x l IH]; simpl; [done |].
  by destruct (String.eqb (Product.id x) product_id).
Qed.

(** X6. [get_by_id] answers with the first product, in insertion order,
    that carries the identifier: products stored before it carry another
    one, and a later product with the same identifier is never returned. *)
Theorem get_by_id_first_match (w : World) (product_id : string) (p : Product.t) :
  get_by_id product_id w = (Ok (Some p), w) ↔
  ∃ before after,
    db_products w = before ++ p :: after ∧
    Product.id p = product_id ∧
    ∀ q, q ∈ before → Product.id q ≠ product_id.
Proof.
  rewrite <- get_by_id_loop_first. unfold get_by_id. split.
  - by intros [= ->].
  - by intros ->.
Qed.

(** X7. With a UUID generator that never repeats itself, the identifiers
    of the stored products are pairwise distinct in every reachable world,
    and each stored product is the one [get_by_id] finds under its
    identifier. *)
Theorem stored_products_retrievable (w : World) :
  uuid4_never_repeats →
  reachable w →
  NoDup (Product.id <$> db_products w) ∧
  ∀ p, p ∈ db_products w → get_by_id (Product.id p) w = (Ok (Some p), w).
Proof.
  intros Hu Hr. destruct (reachable_invariant w Hu Hr) as (_ & Hnd & _).
  split; [done |]. intros p Hp. unfold get_by_id.
  by rewrite get_by_id_loop_NoDup.
Qed.

(** X8. Search, then export: the identifier answered by a valid search
    can be exported at once, and the exported table holds the header and
    the row of the very product the search answered with. *)
Theorem search_then_export (w : World) (payload : SearchRequest.t) :
  uuid4_never_repeats →
  reachable w →
  opt_bool (SearchRequest.ean payload) || opt_bool (SearchRequest.sku payload) = true →
  ∃ product w' csv_data,
    search_product payload w = (Ok (JSONResponse (SearchResult product)), w') ∧
    export_prestashop_csv (Product.id product) w'
    = (Ok (Response csv_data "text/csv"
             [("Content-Disposition",
               "attachment; filename=" +:+ "fiche_" +:+ Product.id product +:+ ".csv")]),
       w') ∧
    read_table csv_data = Some [header_row; data_row product].
Proof.
  intros Hu Hr Hv.
  pose proof (reachable_invariant _ Hu (reachable_step _ _ _ _ _ w
                                          (POST_api_search payload) Hr))
    as (_ & Hnd & Hpr).
  unfold main.handle in Hnd, Hpr. rewrite (search_product_run _ _ Hv) in Hnd, Hpr.
  simpl in Hnd, Hpr.
  eexists _, _, _. split; [by apply search_product_run |].
  set (product := new_product payload (trace w)) in *.
  assert (product ∈ db_products w ++ [product]) as Hin
    by (apply elem_of_app; right; left).
  split.
  - rewrite (export_prestashop_csv_found _ product).
    + rewrite row_values_data_row; [done |].
      by apply (proj1 (Forall_forall _ _) Hpr).
    + exact (get_by_id_loop_NoDup _ product Hnd Hin).
  - by apply read_table_two_lines.
Qed.

(** X9. In any store, the export of an identifier writes the product that
    [get_by_id] finds and leaves the world as it was.  Read back, the text
    is the header and one row of eight cells; the Price cell is empty when
    the price is absent and also when it is zero. *)
Theorem export_prestashop_csv_first_match
    (w : World) (product_id : string) (p : Product.t) :
  get_by_id product_id w = (Ok (Some p), w) →
  ∃ csv_data,
    export_prestashop_csv product_id w
    = (Ok (Response csv_data "text/csv"
             [("Content-Disposition",
               "attachment; filename=" +:+ "fiche_" +:+ product_id +:+ ".csv")]), w) ∧
    read_table csv_data
    = Some [ header_row;
             [ Product.name p;
               match Product.price p with
               | Some x => if float_bool x then float_str x else EmptyString
               | None => EmptyString
               end;
               Product.description p;
               default EmptyString (Product.sku p);
               default EmptyString (Product.ean p);
               default EmptyString (Product.category p);
               default EmptyString (Product.image p);
               default EmptyString (Product.brand p) ] ].
Proof.
  unfold get_by_id. intros [= Hget].
  pose proof (get_by_id_loop_Some _ _ _ Hget) as [_ Hid].
  eexists. split.
  - rewrite (export_prestashop_csv_found _ _ _ Hget), Hid. reflexivity.
  - rewrite read_table_two_lines by done. do 2 f_equal.
    unfold to_prestashop_row. simpl. rewrite !or_empty_default.
    do 2 f_equal. by destruct (Product.price p) as [x|]; [destruct (float_bool x) |].
Qed.

(** *** What the routes leave alone *)

(** X10. A request that is not a valid search (the pages, the listing, an
    export, the health check, a rejected search) leaves the store and the
    call log as they were and keeps every list object created before. *)
Theorem handle_read_only (w : World) (r : request) :
  valid_search r = false →
  db_products (handle r w).2 = db_products w ∧
  trace (handle r w).2 = trace w ∧
  heap w ⊆ heap (handle r w).2.
Proof.
  intros Hnv.
  destruct (handle_effect r w) as [[(Hdb & _ & Htr) | (payload & -> & Hv & _)] Hheap].
  - done.
  - simpl in Hnv. congruence.
Qed.

(** X11. A stored product stays where it is, unchanged, whatever requests
    are served afterwards: nothing is removed, replaced or moved. *)
Theorem store_append_only (w : World) (rs : list request) (i : nat) (p : Product.t) :
  db_products w !! i = Some p →
  db_products (serve rs w).2 !! i = Some p.
Proof.
  intros Hi. destruct (serve_effect rs w) as (-> & _ & _).
  by apply lookup_app_l_Some.
Qed.

(** X12. After any run of requests served from the start, the health
    check reports as many products as there were valid searches, and the
    listing and the home page show the products those searches answered
    with, in order. *)
Theorem routes_after_requests (rs : list request) :
  let outs := (serve rs init_world).1 in
  let w := (serve rs init_world).2 in
  (health_check w).1 = Ok (JSONResponse (Health "OK" (length (filter valid_search rs)))) ∧
  (get_products w).1 = Ok (JSONResponse (ProductList (created_products outs))) ∧
  (home w).1 = Ok (TemplateResponse "index.html" (created_products outs)).
Proof.
  intros outs w. destruct (serve_effect rs init_world) as (Hdb & Hlen & _).
  fold outs w in Hdb, Hlen. simpl in Hdb.
  unfold health_check, get_products, home.
  rewrite (reader_run (fun l => JSONResponse (Health "OK" (length l)))),
    (reader_run (fun l => JSONResponse (ProductList l))),
    (reader_run (TemplateResponse "index.html")).
  simpl. by rewrite Hdb, Hlen.
Qed.

(** X13. Each call of [get_all] makes a list object of its own: a list
    obtained before a product is added still holds the products of that
    moment, a list obtained after holds the new product too, and the two
    are different objects. *)
Theorem get_all_copies (w : World) (p : Product.t) :
  let first := get_all w in
  let second := get_all (add p first.2).2 in
  ∃ a1 a2,
    first.1 = Ok a1 ∧ second.1 = Ok a2 ∧ a1 ≠ a2 ∧
    heap second.2 !! a1 = Some (db_products w) ∧
    heap second.2 !! a2 = Some (db_products w ++ [p]).
Proof.
  intros first second. subst first second. rewrite get_all_run. simpl.
  eexists _, _. split; [done |]. split; [done |].
  set (a1 := fresh (dom (heap w))).
  set (a2 := fresh (dom (<[a1 := db_products w]> (heap w)))).
  assert (a1 ≠ a2) as Hne.
  { intros Heq. apply (is_fresh (dom (<[a1 := db_products w]> (heap w)))).
    fold a2. rewrite <- Heq. apply elem_of_dom. rewrite lookup_insert_eq. eauto. }
  split; [done |]. split.
  - rewrite lookup_insert_ne by done. apply lookup_insert_eq.
  - apply lookup_insert_eq.
Qed.

(** X14. Whatever the settings and whatever the remote shop answers, the
    PrestaShop call leaves the store and the list objects alone, and what
    it adds to the call log is one request at most. *)
Theorem create_product_in_prestashop_store_untouched (w : World) (product : Product.t) :
  let w' := (create_product_in_prestashop product w).2 in
  db_products w' = db_products w ∧
  heap w' = heap w ∧
  (trace w' = trace w ∨ ∃ url body key, trace w' = trace w ++ [EvPost url body key]).
Proof.
  unfold main.create_product_in_prestashop.
  destruct (negb (opt_bool PRESTASHOP_BASE_URL) || negb (opt_bool PRESTASHOP_API_KEY)).
  - simpl. split; [done |]. split; [done | by left].
  - unfold bind, try_except, requests_post.
    destruct (post_answer _ _ _ _) as [r | cause]; mrun.
    + destruct (negb _); simpl; (split; [done |]); (split; [done |]); right; eauto.
    + split; [done |]. split; [done |]. right. eauto.
Qed.

(** X15. The search itself checks nothing about the identifier it draws.
    Should the drawn identifier already be in the store, the new product is
    stored all the same, and [get_by_id] with that identifier goes on
    answering with the earlier product. *)
Theorem search_product_shadowed (w : World) (payload : SearchRequest.t) :
  opt_bool (SearchRequest.ean payload) || opt_bool (SearchRequest.sku payload) = true →
  ∃ product w',
    search_product payload w = (Ok (JSONResponse (SearchResult product)), w') ∧
    last (db_products w') = Some product ∧
    ∀ q, q ∈ db_products w → Product.id q = Product.id product →
      ∃ earlier,
        earlier ∈ db_products w ∧
        get_by_id (Product.id product) w = (Ok (Some earlier), w) ∧
        get_by_id (Product.id product) w' = (Ok (Some earlier), w').
Proof.
  intros Hv. eexists _, _. split; [by apply search_product_run |].
  set (product := new_product payload (trace w)).
  cbn [db_products]. split; [by rewrite last_snoc |].
  intros q Hq Hid. unfold get_by_id. cbn [db_products].
  destruct (get_by_id_loop (Product.id product) (db_products w)) as [earlier|] eqn:E.
  - exists earlier. split; [by apply (get_by_id_loop_Some _ _ _ E) |].
    split; [done |]. by rewrite (get_by_id_loop_app _ _ [product] _ E).
  - exfalso. by apply (proj1 (get_by_id_loop_None _ _) E q).
Qed.

Lemma new_product_sheet payload tr :
  opt_bool (SearchRequest.ean payload) || opt_bool (SearchRequest.sku payload) = true →
  Product.description (new_product payload tr)
  = "Découvrez " +:+ Product.name (new_product payload tr) +:+ ".".
Proof.
  intros Hv. destruct (valid_search_term payload Hv) as [_ Hne].
  unfold main.new_product. cbn [Product.description Product.name]. rewrite Hne.
  rewrite opening_sentence_bare by done.
  change (join " " [?x]) with x.
  rewrite <- (append_assoc "Découvrez " _ "."). apply with_final_period_fixed.
Qed.

(** X16. The store does not merge searches: the same valid request sent
    twice stores two products, one after the other, with the same name,
    description and search term and, the UUID generator never repeating
    itself, with different identifiers. *)
Theorem search_twice_stores_twice (w : World) (payload : SearchRequest.t) :
  uuid4_never_repeats →
  opt_bool (SearchRequest.ean payload) || opt_bool (SearchRequest.sku payload) = true →
  ∃ p1 p2 w1 w2,
    search_product payload w = (Ok (JSONResponse (SearchResult p1)), w1) ∧
    search_product payload w1 = (Ok (JSONResponse (SearchResult p2)), w2) ∧
    db_products w2 = db_products w ++ [p1; p2] ∧
    Product.id p1 ≠ Product.id p2 ∧
    Product.name p1 = Product.name p2 ∧
    Product.description p1 = Product.description p2 ∧
    Product.search_term p1 = Product.search_term p2.
Proof.
  intros Hu Hv. eexists _, _, _, _.
  split; [by apply search_product_run |].
  split; [by apply search_product_run |].
  cbn [db_products trace]. split; [by rewrite <- app_assoc |].
  split; [| split; [done |]; split; [| done]].
  - rewrite !new_product_id. intros Heq. symmetry in Heq. revert Heq.
    rewrite <- !app_assoc.
    rewrite (app_assoc (trace w) (lookup_events payload)
               ([EvUuid4; EvNow] ++ lookup_events payload)).
    apply Hu.
  - by rewrite !new_product_sheet.
Qed.

End ServiceFacts.

(** ** The statements on the concrete setting *)

Lemma unary_length n : String.length (unary n) = n.
Proof. induction n as [|n IH]; simpl; [done | by rewrite IH]. Qed.

Lemma counting_uuid4_never_repeats : uuid4_never_repeats counting_uuid4.
Proof.
  intros tr more H. apply (f_equal String.length) in H.
  unfold counting_uuid4 in H. rewrite !unary_length, length_app in H. simpl in H. lia.
Qed.

Lemma world_one_reachable :
  reachable sample_lower sample_float_str sample_translate counting_uuid4 sample_now
    world_one.
Proof. apply reachable_step, reachable_init. Qed.

Lemma world_one_store : db_products world_one = [product_one].
Proof. reflexivity. Qed.

Lemma search_product_creates_witness :
  ∃ product w',
    sample_search sku_request world_one = (Ok (JSONResponse (SearchResult product)), w') ∧
    db_products w' = [product_one; product] ∧
    Product.id product ≠ Product.id product_one ∧
    Product.search_type product = "SKU".
Proof.
  destruct (search_product_creates sample_lower sample_float_str sample_translate
              counting_uuid4 sample_now world_one sku_request
              counting_uuid4_never_repeats world_one_reachable eq_refl)
    as (product & w' & Hrun & Hdb & _ & _ & _ & Hfresh & _ & Hsku).
  exists product, w'. split; [exact Hrun |]. split; [exact Hdb |]. split.
  - intros Heq. apply (Hfresh product_one); [left | done].
  - apply Hsku. reflexivity.
Defined.

Lemma search_product_rejects_witness :
  ∃ detail,
    sample_search (SearchRequest.mk None (Some EmptyString)) world_one
    = (Raise (HTTPException 400 detail), world_one).
Proof.
  destruct (search_product_rejects sample_lower sample_translate counting_uuid4
              sample_now world_one (SearchRequest.mk None (Some EmptyString))
              eq_refl eq_refl) as (detail & Hrun & _).
  exists detail. exact Hrun.
Defined.

Lemma search_product_prefers_ean_witness :
  ∃ product w',
    sample_search (SearchRequest.mk (Some "3017620422003") (Some "REF-42")) init_world
    = (Ok (JSONResponse (SearchResult product)), w') ∧
    Product.search_term product = "3017620422003".
Proof.
  destruct (search_product_prefers_ean sample_lower sample_translate counting_uuid4
              sample_now init_world "3017620422003" "REF-42")
    as (product & w' & calls & Hrun & _ & _ & _ & _ & Hterm); [done | done |].
  exists product, w'. split; [exact Hrun | exact Hterm].
Defined.




Lemma create_product_in_prestashop_unconfigured_witness :
  ∃ msg,
    create_product_in_prestashop sample_float_str refusing_post
      (Some "https://shop.example") None product_one world_one
    = (Raise (RuntimeError msg), world_one).
Proof.
  destruct (create_product_in_prestashop_unconfigured sample_float_str refusing_post
              (Some "https://shop.example") None world_one product_one)
    as (msg & Hrun & _); [by right |].
  exists msg. exact Hrun.
Defined.

Lemma create_product_in_prestashop_single_call_witness :
  (create_product_in_prestashop sample_float_str refusing_post
     (Some "https://shop.example") (Some "KEY") product_one init_world).1
  = Raise (HTTPException 401 "Erreur API PrestaShop: Unauthorized").
Proof.
  destruct (create_product_in_prestashop_single_call sample_float_str refusing_post
              (Some "https://shop.example") (Some "KEY") init_world product_one
              eq_refl eq_refl) as (_ & _ & Hstatus & _).
  apply (Hstatus {| status_code := 401; text := "Unauthorized" |}); done.
Defined.

(** C6 as the specification words it fails for an empty name: the code
    emits no opening sentence, the specification's step 1 emits one. *)
Lemma generate_french_description_empty_name :
  (generate_french_description sample_lower sample_translate
     EmptyString None None None None init_world).1 = Ok "." ∧
  spec_description sample_lower sample_translate [] EmptyString None None None None
  = Ok "Découvrez ." ∧
  (generate_french_description sample_lower sample_translate
     EmptyString None None None None init_world).1
  ≠ spec_description sample_lower sample_translate []
      EmptyString None None None None.
Proof. split; [reflexivity |]. split; [reflexivity | discriminate]. Qed.

(** C9 as the specification words it fails for a remote status outside the
    5xx class: the error handed to the caller carries the remote status. *)
Lemma create_product_in_prestashop_forwards_401 :
  (create_product_in_prestashop sample_float_str refusing_post
     (Some "https://shop.example") (Some "KEY") product_one init_world).1
  = Raise (HTTPException 401 "Erreur API PrestaShop: Unauthorized") ∧
  ¬ server_error (HTTPException 401 "Erreur API PrestaShop: Unauthorized").
Proof.
  split; [reflexivity |]. intros (status & detail & [= <- <-] & H). lia.
Qed.

(** The generator on a full input: the second feature's translation raises
    and the feature stays in English; the final period is added. *)
Example generate_french_description_sample :
  (generate_french_description sample_lower sample_translate
     "Chaussure" (Some "AIDM") (Some "Running Shoes")
     (Some ["Light"; "Breathable"]) (Some "Great shoe") init_world).1
  = Ok ("Découvrez Chaussure de la marque AIDM. Il s'agit d'un(e) running shoes. "
        +:+ "Caractéristiques principales : (fr) Light; Breathable. (fr) Great shoe.").
Proof. reflexivity. Qed.

(** A cell that holds the delimiter or a quote is written in quotes and
    read back as it was. *)
Example csv_line_quoted :
  csv_line ["a;b"; "c" +:+ dquote +:+ "d"; EmptyString]
  = dquote +:+ "a;b" +:+ dquote +:+ ";" +:+ dquote +:+ "c" +:+ dquote +:+ dquote
    +:+ "d" +:+ dquote +:+ ";" +:+ CR +:+ LF
  ∧ read_table (csv_line ["a;b"; "c" +:+ dquote +:+ "d"; EmptyString])
    = Some [["a;b"; "c" +:+ dquote +:+ "d"; EmptyString]].
Proof. split; reflexivity. Qed.

(** ** The further properties on the concrete setting *)

Lemma search_product_generic_sheet_witness :
  ∃ product,
    (sample_search ean_request init_world).1 = Ok (JSONResponse (SearchResult product)) ∧
    Product.search_term product = "3017620422003" ∧
    Product.name product
    = "Produit " +:+ Product.search_type product +:+ " 3017620422003" ∧
    Product.brand product = None.
Proof.
  destruct (search_product_generic_sheet sample_lower sample_translate counting_uuid4
              sample_now init_world ean_request eq_refl)
    as (product & Hrun & Hterm & _ & Hname & _ & _ & _ & Hbrand & _).
  exists product. split; [exact Hrun |]. split; [exact Hterm |].
  split; [by rewrite Hname, Hterm | exact Hbrand].
Defined.

Lemma search_product_calls_witness :
  trace (sample_search sku_request world_one).2
  = trace world_one ++ [EvLookupSku "REF-42"; EvUuid4; EvNow].
Proof.
  exact (proj1 (search_product_calls sample_lower sample_translate counting_uuid4
                  sample_now world_one sku_request eq_refl)).
Defined.

Lemma stored_products_retrievable_witness :
  get_by_id (Product.id product_one) world_one = (Ok (Some product_one), world_one).
Proof.
  apply (stored_products_retrievable sample_lower sample_float_str sample_translate
           counting_uuid4 sample_now world_one
           counting_uuid4_never_repeats world_one_reachable).
  rewrite world_one_store. left.
Defined.

Lemma search_then_export_witness :
  ∃ product w' csv_data,
    sample_search sku_request world_one = (Ok (JSONResponse (SearchResult product)), w') ∧
    (export_prestashop_csv sample_float_str (Product.id product) w').1
    = Ok (Response csv_data "text/csv"
            [("Content-Disposition",
              "attachment; filename=" +:+ "fiche_" +:+ Product.id product +:+ ".csv")]) ∧
    read_table csv_data = Some [header_row; data_row sample_float_str product].
Proof.
  destruct (search_then_export sample_lower sample_float_str sample_translate
              counting_uuid4 sample_now world_one sku_request
              counting_uuid4_never_repeats world_one_reachable eq_refl)
    as (product & w' & csv_data & Hrun & Hexport & Hread).
  exists product, w', csv_data. split; [exact Hrun |].
  split; [by rewrite Hexport | exact Hread].
Defined.

Lemma export_prestashop_csv_first_match_witness :
  ∃ csv_data,
    (export_prestashop_csv sample_float_str "gift-1" gift_world).1
    = Ok (Response csv_data "text/csv"
            [("Content-Disposition", "attachment; filename=fiche_gift-1.csv")]) ∧
    read_table csv_data
    = Some [ header_row;
             [ "Carte cadeau"; EmptyString; "Carte offerte."; "GIFT";
               EmptyString; EmptyString; EmptyString; EmptyString ] ].
Proof.
  destruct (export_prestashop_csv_first_match sample_float_str gift_world "gift-1" gift
              eq_refl) as (csv_data & Hrun & Hread).
  exists csv_data. split; [by rewrite Hrun | exact Hread].
Defined.

Lemma handle_read_only_witness :
  db_products (sample_handle (GET_api_export "unknown") world_one).2
  = db_products world_one ∧
  trace (sample_handle GET_api_health world_one).2 = trace world_one.
Proof.
  split.
  - apply (handle_read_only sample_lower sample_float_str sample_translate
             counting_uuid4 sample_now world_one (GET_api_export "unknown") eq_refl).
  - apply (handle_read_only sample_lower sample_float_str sample_translate
             counting_uuid4 sample_now world_one GET_api_health eq_refl).
Defined.

Lemma store_append_only_witness :
  db_products
    (serve sample_lower sample_float_str sample_translate counting_uuid4 sample_now
       [POST_api_search sku_request; GET_api_health; GET_api_export "u"] world_one).2
    !! 0
  = Some product_one.
Proof.
  apply (store_append_only sample_lower sample_float_str sample_translate
           counting_uuid4 sample_now world_one). reflexivity.
Defined.

Lemma world_repeat_store : db_products world_repeat = [product_repeat].
Proof. reflexivity. Qed.

Lemma search_product_shadowed_witness :
  ∃ product w',
    repeating_search sku_request world_repeat
    = (Ok (JSONResponse (SearchResult product)), w') ∧
    Product.search_type product = "SKU" ∧
    last (db_products w') = Some product ∧
    get_by_id (Product.id product) w' = (Ok (Some product_repeat), w').
Proof.
  destruct (search_product_shadowed sample_lower sample_translate repeating_uuid4
              sample_now world_repeat sku_request eq_refl)
    as (product & w' & Hrun & Hlast & Hshadow).
  exists product, w'. split; [exact Hrun |].
  assert (product
          = new_product repeating_uuid4 sample_now
              sku_request (trace world_repeat)) as Hp.
  { pose proof (search_product_run sample_lower sample_translate repeating_uuid4
                  sample_now sku_request world_repeat eq_refl) as Hrun'.
    unfold repeating_search in Hrun. rewrite Hrun' in Hrun. by injection Hrun. }
  split; [by rewrite Hp |]. split; [exact Hlast |].
  destruct (Hshadow product_repeat) as (earlier & Hin & _ & Hget).
  - rewrite world_repeat_store. left.
  - by rewrite Hp.
  - rewrite world_repeat_store in Hin. apply list_elem_of_singleton in Hin.
    by rewrite <- Hin.
Defined.

Lemma search_twice_stores_twice_witness :
  ∃ p1 p2 w1 w2,
    sample_search ean_request init_world = (Ok (JSONResponse (SearchResult p1)), w1) ∧
    sample_search ean_request w1 = (Ok (JSONResponse (SearchResult p2)), w2) ∧
    db_products w2 = [p1; p2] ∧
    Product.id p1 ≠ Product.id p2.
Proof.
  destruct (search_twice_stores_twice sample_lower sample_translate counting_uuid4
              sample_now init_world ean_request counting_uuid4_never_repeats eq_refl)
    as (p1 & p2 & w1 & w2 & Hrun1 & Hrun2 & Hdb & Hid & _).
  exists p1, p2, w1, w2. done.
Defined.

(** ** The generator when the translator returns [None] *)

Lemma generate_french_description_raises_on_None_witness :
  ∃ msg,
    (generate_french_description sample_lower none_translate
       "Chaussure" (Some "AIDM") None (Some ["Light"; "***"]) None init_world).1
    = Raise (TypeError msg).
Proof.
  apply (generate_french_description_raises_on_None sample_lower none_translate
           init_world "Chaussure" (Some "AIDM") None ["Light"; "***"] None 1 "***");
    reflexivity.
Defined.

(** The same run, with the message of the join: the second item is the
    one that is [None]. *)
Example generate_french_description_None_message :
  (generate_french_description sample_lower none_translate
     "Chaussure" (Some "AIDM") None (Some ["Light"; "***"]) None init_world).1
  = Raise (TypeError "sequence item 1: expected str instance, NoneType found").
Proof. reflexivity. Qed.

Lemma generate_french_description_layout_witness :
  ∃ (features_fr : list string) (english_fr description : string),
    (generate_french_description sample_lower sample_translate
       "Chaussure" (Some "AIDM") (Some "Running Shoes")
       (Some ["Light"; "Breathable"]) (Some "Great shoe") init_world).1
    = Ok description ∧
    features_fr !! 0 = Some "(fr) Light" ∧
    features_fr !! 1 = Some "Breathable" ∧
    english_fr = "(fr) Great shoe".
Proof.
  destruct (generate_french_description_layout sample_lower sample_translate
              init_world "Chaussure" (Some "AIDM") (Some "Running Shoes")
              (Some ["Light"; "Breathable"]) (Some "Great shoe"))
    as (features_fr & english_fr & description & Hrun & _ & Hfeat & Heng & _).
  - intros [|[|i]] feat Hi; [| | done]; injection Hi as <-; discriminate.
  - discriminate.
  - exists features_fr, english_fr, description. split; [exact Hrun |].
    split; [exact (Hfeat 0 "Light" eq_refl) |].
    split; [exact (Hfeat 1 "Breathable" eq_refl) |].
    specialize (Heng eq_refl). by injection Heng.
Defined.

(** The PrestaShop call when the request itself raises: the error 500 and
    its detail, cause included. *)
Example create_product_in_prestashop_unreachable :
  (create_product_in_prestashop sample_float_str unreachable_post
     (Some "https://shop.example") (Some "KEY") product_one init_world).1
  = Raise (HTTPException 500
             "Erreur lors de l'appel à PrestaShop : Connection refused").
Proof. reflexivity. Qed.
